(** * Verb-anchored phrase matching (notebook "Playing with Grammar in Python")

    A shallow embedding of the helper functions of the notebook: the tone
    ratio, the lexicon matcher (the list comprehensions over [w.text]),
    [get_verb], [get_subjMap], [find_sentence] and the two loops that look
    subjects up in [subj_map].

    The dependency parser is an external collaborator.  What it returns is
    modelled as data: a token is an object identity (spaCy compares and
    hashes tokens by their position in the document), and the document maps
    each identity to the attributes the notebook reads ([text], [pos_],
    [dep_], [head]). *)

From Stdlib Require Import String Ascii QArith.
From stdpp Require Import base decidable option list list_numbers strings.

Open Scope string_scope.
Open Scope list_scope.

(** ** Parsed documents *)

(** Identity of a token object: its index in the document. *)
Definition tokid := nat.

(** The attributes of a token that the notebook reads. [head] is a
    reference to another token object of the same document. *)
Record Token : Type := mkToken {
  text : string;
  pos_ : string;
  dep_ : string;
  head : tokid
}.

(** A sentence ([Span]) is the half-open range of token positions
    [start, stop); two spans are equal when their ranges are. *)
Definition Span : Type := (nat * nat)%type.

(** Iterating a span ([for w in s]) yields its tokens in order. *)
Definition span_toks (s : Span) : list tokid := seq (fst s) (snd s - fst s).

(** A parsed document: the attribute store of its token objects and the
    sentence segmentation [doc.sents]. *)
Record Doc : Type := mkDoc {
  token : tokid -> Token;
  sents : list Span
}.

(** Iterating the document ([for w in doc]) yields the tokens of all its
    sentences in order: the sentences partition the document. *)
Definition doc_toks (d : Doc) : list tokid := flat_map span_toks (sents d).

(** A document given as the table the notebook prints
    ([w.text, w.pos_, w.dep_] and the position of [w.head]). *)
Definition doc_of_table (rows : list Token) (ss : list Span) : Doc :=
  {| token := fun i => nth i rows (mkToken "" "" "" i); sents := ss |}.

(** ** Python values used by the notebook *)

(** [x in l] for a Python list of strings: [==] against each entry, left
    to right.  String equality is exact, character by character. *)
Fixpoint str_in (x : string) (l : list string) : bool :=
  match l with
  | [] => false
  | y :: l' => String.eqb x y || str_in x l'
  end.

(** A Python [dict] keeps its entries in insertion order, one per key.
    Storing under a key that is present replaces the value in place. *)
Module PyDict.
Section Dict.
Context {K V : Type} `{EqDecision K}.

Definition dict : Type := list (K * V).

Fixpoint get (k : K) (m : dict) : option V :=
  match m with
  | [] => None
  | (k', v) :: m' => if decide (k = k') then Some v else get k m'
  end.

Fixpoint set (k : K) (v : V) (m : dict) : dict :=
  match m with
  | [] => [(k, v)]
  | (k', v') :: m' =>
      if decide (k = k') then (k', v) :: m' else (k', v') :: set k v m'
  end.

Definition keys (m : dict) : list K := map fst m.
Definition values (m : dict) : list V := map snd m.
End Dict.
Global Arguments dict : clear implicits.
End PyDict.

(** ** Cell 8: the governing verb *)

(** The loop condition of [get_verb]:
    [h.pos_ == 'VERB' and h.dep_ != 'aux']. *)
Definition is_main_verb (d : Doc) (h : tokid) : bool :=
  String.eqb (pos_ (token d h)) "VERB"
  && negb (String.eqb (dep_ (token d h)) "aux").

(** [get_verb]: [h = w; while True: if ...: break; h = h.head; return h].
    The loop has no other exit, so the model counts iterations: [None]
    means the loop is still running after [fuel] tests of the condition. *)
Fixpoint get_verb (fuel : nat) (d : Doc) (h : tokid) : option tokid :=
  match fuel with
  | O => None
  | S fuel' =>
      if is_main_verb d h then Some h
      else get_verb fuel' d (head (token d h))
  end.

(** [get_verb w] returns [v]: some number of iterations suffices. *)
Definition get_verb_returns (d : Doc) (w v : tokid) : Prop :=
  exists fuel, get_verb fuel d w = Some v.

(** The head chain of [w]: [w], [w.head], [w.head.head], ... *)
Fixpoint chain (d : Doc) (w : tokid) (k : nat) : tokid :=
  match k with
  | O => w
  | S k' => chain d (head (token d w)) k'
  end.

(** The first position of the head chain that satisfies the loop
    condition. *)
Definition first_main_verb (d : Doc) (w : tokid) (k : nat) : Prop :=
  is_main_verb d (chain d w k) = true /\
  forall j, j < k -> is_main_verb d (chain d w j) = false.

(** A well-formed dependency tree over the tokens [toks] with root [root]:
    the root is its own head, heads stay inside the sentence, and every
    head chain arrives at the root. *)
Record wf_tree (d : Doc) (toks : list tokid) (root : tokid) : Prop := {
  wf_root_in : root ∈ toks;
  wf_root_self : head (token d root) = root;
  wf_head_in : forall w, w ∈ toks -> head (token d w) ∈ toks;
  wf_reaches_root : forall w, w ∈ toks -> exists k, chain d w k = root
}.

(** ** Exceptions *)

Inductive exn : Type :=
| KeyError (k : tokid)
| ZeroDivisionError.

(** What a cell that may raise produces. *)
Inductive result (A : Type) : Type :=
| Return (a : A)
| Raise (e : exn).
Global Arguments Return {A} a.
Global Arguments Raise {A} e.

Global Instance result_ret : MRet result := fun A a => Return a.
Global Instance result_bind : MBind result := fun A B f m =>
  match m with
  | Return a => f a
  | Raise e => Raise e
  end.

(** ** Cell 1: tone of a sentence *)

(** [str.isspace] on the code points below 256. *)
Definition is_space (c : ascii) : bool :=
  let n := nat_of_ascii c in
  (Nat.leb 9 n && Nat.leb n 13) || (Nat.leb 28 n && Nat.leb n 32)
  || Nat.eqb n 133 || Nat.eqb n 160.

(** [sentence.split()]: the maximal runs of characters that are not
    white space. [cur] is the run being read. *)
Fixpoint split_from (cur : string) (s : string) : list string :=
  match s with
  | EmptyString => if String.eqb cur "" then [] else [cur]
  | String c s' =>
      if is_space c then
        if String.eqb cur "" then split_from "" s' else cur :: split_from "" s'
      else split_from (cur ++ String c "")%string s'
  end.

Definition split (sentence : string) : list string := split_from "" sentence.

(** [a / b] on two [int]s: the quotient (Python rounds it to a float), or
    [ZeroDivisionError]. *)
Definition truediv (a b : nat) : result Q :=
  if Nat.eqb b 0 then Raise ZeroDivisionError
  else Return (Qred (Qmake (Z.of_nat a) (Pos.of_nat b))).

Definition positive_words : list string := ["great"; "tremendous"; "amazing"].
Definition negative_words : list string := ["awful"; "terrible"; "horrific"].

(** [num_pos], [num_neg] and [tone = num_neg / (num_neg + num_pos)]. *)
Definition tone (positive_words negative_words : list string)
    (sentence : string) : result Q :=
  let num_pos :=
    length (List.filter (fun word => str_in word positive_words) (split sentence)) in
  let num_neg :=
    length (List.filter (fun word => str_in word negative_words) (split sentence)) in
  truediv num_neg (num_neg + num_pos).

(** ** Cells 3, 4: the word lists *)

Definition earnings_words : list string :=
  ["earnings"; "profitability"; "dollars per share"].
Definition forward_words : list string :=
  ["forecasted"; "estimated"; "will"; "expected"].

(** ** The lexicon matcher *)

(** [[w for w in toks if w.text in words]], with [toks] a sentence
    ([ep_words], [fp_words]) or the document ([e_words], [f_words]). *)
Definition lexicon_match (d : Doc) (toks : list tokid) (words : list string)
    : list tokid :=
  List.filter (fun w => str_in (text (token d w)) words) toks.

(** [{w: get_verb(w) for w in ws}]: the entries are stored in the order
    of [ws]; the comprehension returns only if every call does. *)
Fixpoint verbs_of (fuel : nat) (d : Doc) (ws : list tokid)
    (acc : PyDict.dict tokid tokid) : option (PyDict.dict tokid tokid) :=
  match ws with
  | [] => Some acc
  | w :: ws' =>
      v ← get_verb fuel d w;
      verbs_of fuel d ws' (PyDict.set w v acc)
  end.

(** ** Cell 11: the subject of each verb *)

(** The body of the inner loop of [get_subjMap]. *)
Definition record_subject (d : Doc) (subj_map : PyDict.dict tokid tokid)
    (w : tokid) : PyDict.dict tokid tokid :=
  if String.eqb (dep_ (token d w)) "nsubj"
  then PyDict.set (head (token d w)) w subj_map
  else subj_map.

Definition get_subjMap (d : Doc) : PyDict.dict tokid tokid :=
  fold_left
    (fun subj_map s => fold_left (record_subject d) (span_toks s) subj_map)
    (sents d) [].

(** [w] is a nominal subject whose head is [v]. *)
Definition subject_of (d : Doc) (v w : tokid) : Prop :=
  dep_ (token d w) = "nsubj" /\ head (token d w) = v.

Global Instance subject_of_dec d v w : Decision (subject_of d v w).
Proof. unfold subject_of. apply _. Defined.

(** ** Cell 14: sentences that pair a topic word with a forward word *)

(** An instance [[e.text, f.text, ev]]. *)
Definition Instance : Type := (string * string * tokid)%type.

(** The body of [if ev == fv]: start the list of sentence [s] or append
    to it. *)
Definition emit (s : Span) (inst : Instance)
    (return_items : PyDict.dict Span (list Instance))
    : PyDict.dict Span (list Instance) :=
  match PyDict.get s return_items with
  | None => PyDict.set s [inst] return_items
  | Some l => PyDict.set s (l ++ [inst]) return_items
  end.

(** The two nested loops over [ep_verbs.items()] and [fp_verbs.items()];
    [ev == fv] compares token objects, that is positions. *)
Definition match_pairs (d : Doc) (s : Span)
    (ep_verbs fp_verbs : PyDict.dict tokid tokid)
    (return_items : PyDict.dict Span (list Instance))
    : PyDict.dict Span (list Instance) :=
  fold_left
    (fun ri '(e, ev) =>
       fold_left
         (fun ri '(f, fv) =>
            if Nat.eqb ev fv
            then emit s (text (token d e), text (token d f), ev) ri
            else ri)
         fp_verbs ri)
    ep_verbs return_items.

(** The loop [for s in doc.sents] from a given state of [return_items]. *)
Fixpoint find_sentence_from (fuel : nat) (earnings_words forward_words : list string)
    (d : Doc) (ss : list Span) (return_items : PyDict.dict Span (list Instance))
    : option (PyDict.dict Span (list Instance)) :=
  match ss with
  | [] => Some return_items
  | s :: ss' =>
      ep_verbs ← verbs_of fuel d (lexicon_match d (span_toks s) earnings_words) [];
      fp_verbs ← verbs_of fuel d (lexicon_match d (span_toks s) forward_words) [];
      find_sentence_from fuel earnings_words forward_words d ss'
        (match_pairs d s ep_verbs fp_verbs return_items)
  end.

(** [find_sentence]; the two word lists are the globals it reads. Each
    call of [get_verb] may run for [fuel] iterations; [None] means some
    call has not returned by then. *)
Definition find_sentence (fuel : nat) (earnings_words forward_words : list string)
    (d : Doc) : option (PyDict.dict Span (list Instance)) :=
  find_sentence_from fuel earnings_words forward_words d (sents d) [].

(** [find_sentence doc] returns [r]. *)
Definition find_sentence_returns (earnings_words forward_words : list string)
    (d : Doc) (r : PyDict.dict Span (list Instance)) : Prop :=
  exists fuel, find_sentence fuel earnings_words forward_words d = Some r.

(** The result [return_items] holds the instance [inst] under the
    sentence [s]. *)
Definition emitted (return_items : PyDict.dict Span (list Instance))
    (s : Span) (inst : Instance) : Prop :=
  exists l, PyDict.get s return_items = Some l /\ inst ∈ l.

(** No sentence is stored with an empty list of instances. *)
Definition no_empty_entry (return_items : PyDict.dict Span (list Instance)) : Prop :=
  forall s l, PyDict.get s return_items = Some l -> l <> [].

(** The token [w] of the sentence [s] is matched by one of the word
    lists, so [find_sentence] calls [get_verb] on it. *)
Definition matched (earnings_words forward_words : list string) (d : Doc)
    (w : tokid) : Prop :=
  text (token d w) ∈ earnings_words \/ text (token d w) ∈ forward_words.

Global Instance matched_dec E F d w : Decision (matched E F d w).
Proof. unfold matched. apply _. Defined.

(** [inst] is [(e.text, f.text, v)] for two tokens [e], [f] of the
    sentence [s], [e] a topic word and [f] a forward word, on both of
    which [get_verb] returns the token [v]. *)
Definition shared_verb_pair (earnings_words forward_words : list string)
    (d : Doc) (s : Span) (inst : Instance) : Prop :=
  exists e f v,
    inst = (text (token d e), text (token d f), v) /\
    e ∈ span_toks s /\ f ∈ span_toks s /\
    text (token d e) ∈ earnings_words /\
    text (token d f) ∈ forward_words /\
    get_verb_returns d e v /\ get_verb_returns d f v.

(** ** Cells 12 and 16: who is speaking *)

(** [subj_map[k]]. *)
Definition subscript (subj_map : PyDict.dict tokid tokid) (k : tokid)
    : result tokid :=
  match PyDict.get k subj_map with
  | Some v => Return v
  | None => Raise (KeyError k)
  end.

(** Cell 12: [for e, v in e_verbs.items(): subj = subj_map[v.head]; print(e, subj)].
    The value is the list of printed lines. *)
Fixpoint speakers_of_verbs (d : Doc) (items : list (tokid * tokid))
    (subj_map : PyDict.dict tokid tokid) : result (list (tokid * tokid)) :=
  match items with
  | [] => Return []
  | (e, v) :: items' =>
      subj ← subscript subj_map (head (token d v));
      out ← speakers_of_verbs d items' subj_map;
      Return ((e, subj) :: out)
  end.

(** Cell 16, inner loop: [e, f, v = instance; subj = subj_map[v]; print(e, f, v, subj)]. *)
Fixpoint speakers_of_instances (instances : list Instance)
    (subj_map : PyDict.dict tokid tokid) : result (list (Instance * tokid)) :=
  match instances with
  | [] => Return []
  | (e, f, v) :: instances' =>
      subj ← subscript subj_map v;
      out ← speakers_of_instances instances' subj_map;
      Return ((e, f, v, subj) :: out)
  end.

(** Cell 16, outer loop over [found_sentences.values()]. *)
Fixpoint speakers (values : list (list Instance))
    (subj_map : PyDict.dict tokid tokid) : result (list (Instance * tokid)) :=
  match values with
  | [] => Return []
  | instances :: values' =>
      out1 ← speakers_of_instances instances subj_map;
      out2 ← speakers values' subj_map;
      Return (out1 ++ out2)
  end.

(** ** Documents *)

(** Cell 7: the parse of [sent],
    "XYZ announced that earnings will increase this year.", as printed. *)
Definition sent_doc : Doc :=
  doc_of_table
    [ mkToken "XYZ" "PROPN" "nsubj" 1;
      mkToken "announced" "VERB" "ROOT" 1;
      mkToken "that" "ADP" "mark" 5;
      mkToken "earnings" "NOUN" "nsubj" 5;
      mkToken "will" "VERB" "aux" 5;
      mkToken "increase" "VERB" "ccomp" 1;
      mkToken "this" "DET" "det" 7;
      mkToken "year" "NOUN" "npadvmod" 5;
      mkToken "." "PUNCT" "punct" 1 ]
    [(0, 9)].

(** A sentence without a verb, "Strong earnings growth.": the root of
    its tree is a noun. *)
Definition fragment_doc : Doc :=
  doc_of_table
    [ mkToken "Strong" "ADJ" "amod" 2;
      mkToken "earnings" "NOUN" "compound" 2;
      mkToken "growth" "NOUN" "ROOT" 2;
      mkToken "." "PUNCT" "punct" 2 ]
    [(0, 4)].

(** The sentence of cell 7 followed by the sentence without a verb. *)
Definition sent_then_fragment_doc : Doc :=
  doc_of_table
    [ mkToken "XYZ" "PROPN" "nsubj" 1;
      mkToken "announced" "VERB" "ROOT" 1;
      mkToken "that" "ADP" "mark" 5;
      mkToken "earnings" "NOUN" "nsubj" 5;
      mkToken "will" "VERB" "aux" 5;
      mkToken "increase" "VERB" "ccomp" 1;
      mkToken "this" "DET" "det" 7;
      mkToken "year" "NOUN" "npadvmod" 5;
      mkToken "." "PUNCT" "punct" 1;
      mkToken "Strong" "ADJ" "amod" 11;
      mkToken "earnings" "NOUN" "compound" 11;
      mkToken "growth" "NOUN" "ROOT" 11;
      mkToken "." "PUNCT" "punct" 11 ]
    [(0, 9); (9, 13)].

(** A passive sentence, "Higher earnings are expected next year.": the
    parser labels its subject [nsubjpass], so no [nsubj] is recorded for
    the verb. *)
Definition passive_doc : Doc :=
  doc_of_table
    [ mkToken "Higher" "ADJ" "amod" 1;
      mkToken "earnings" "NOUN" "nsubjpass" 3;
      mkToken "are" "VERB" "auxpass" 3;
      mkToken "expected" "VERB" "ROOT" 3;
      mkToken "next" "ADJ" "amod" 5;
      mkToken "year" "NOUN" "npadvmod" 3;
      mkToken "." "PUNCT" "punct" 3 ]
    [(0, 7)].

(** Cell 5: the words and punctuation marks of [bad_sent]. *)
Definition bad_sent_words : list string :=
  [ "XYZ"; "stated"; "that"; "although"; "earnings"; "had"; "fallen";
    "last"; "year"; ","; "the"; "board"; "remained"; "confident"; "in";
    "how"; "the"; "new"; "CEO"; "will"; "manage"; "the"; "company"; "." ].

(** A token made of white space only (the tokenizer turns the line break
    and indentation inside [bad_sent] into one). *)
Fixpoint all_space (s : string) : bool :=
  match s with
  | EmptyString => true
  | String c s' => is_space c && all_space s'
  end.

(** The token texts of a sentence, white-space tokens left out. *)
Definition visible_texts (d : Doc) (s : Span) : list string :=
  List.filter (fun t => negb (all_space t)) (map (fun w => text (token d w)) (span_toks s)).

(** One parse of [bad_sent]; the notebook does not print it. *)
Definition bad_sent_doc : Doc :=
  doc_of_table
    [ mkToken "XYZ" "PROPN" "nsubj" 1;
      mkToken "stated" "VERB" "ROOT" 1;
      mkToken "that" "ADP" "mark" 13;
      mkToken "although" "ADP" "mark" 6;
      mkToken "earnings" "NOUN" "nsubj" 6;
      mkToken "had" "VERB" "aux" 6;
      mkToken "fallen" "VERB" "advcl" 13;
      mkToken "last" "ADJ" "amod" 8;
      mkToken "year" "NOUN" "npadvmod" 6;
      mkToken "," "PUNCT" "punct" 13;
      mkToken (String (ascii_of_nat 10) "              ") "SPACE" "" 9;
      mkToken "the" "DET" "det" 12;
      mkToken "board" "NOUN" "nsubj" 13;
      mkToken "remained" "VERB" "ccomp" 1;
      mkToken "confident" "ADJ" "acomp" 13;
      mkToken "in" "ADP" "prep" 14;
      mkToken "how" "ADV" "advmod" 21;
      mkToken "the" "DET" "det" 19;
      mkToken "new" "ADJ" "amod" 19;
      mkToken "CEO" "PROPN" "nsubj" 21;
      mkToken "will" "VERB" "aux" 21;
      mkToken "manage" "VERB" "pcomp" 15;
      mkToken "the" "DET" "det" 23;
      mkToken "company" "NOUN" "dobj" 21;
      mkToken "." "PUNCT" "punct" 1 ]
    [(0, 25)].

(** Two subjects for one verb, "Sales, earnings rose.": both [nsubj]
    tokens have the head [rose]. *)
Definition two_subjects_doc : Doc :=
  doc_of_table
    [ mkToken "Sales" "NOUN" "nsubj" 3;
      mkToken "," "PUNCT" "punct" 3;
      mkToken "earnings" "NOUN" "nsubj" 3;
      mkToken "rose" "VERB" "ROOT" 3;
      mkToken "." "PUNCT" "punct" 3 ]
    [(0, 5)].

(** ** Cells 2 to 4: which words of a list occur in the sentence *)

Definition sent : string :=
  "XYZ announced that earnings will increase this year.".

(** [s.startswith(w)]. *)
Fixpoint starts_with (w s : string) : bool :=
  match w with
  | EmptyString => true
  | String c w' =>
      match s with
      | EmptyString => false
      | String c' s' => Ascii.eqb c c' && starts_with w' s'
      end
  end.

(** [w in s] for two strings: [w] occurs in [s] at some position. *)
Fixpoint str_contains (w s : string) : bool :=
  starts_with w s
  || match s with
     | EmptyString => false
     | String _ s' => str_contains w s'
     end.

(** [[w in sent for w in words]]. *)
Definition words_in (sentence : string) (words : list string) : list bool :=
  map (fun w => str_contains w sentence) words.

(** ** Cells 8 and 9: the verbs of the matched words of the document *)

(** [e_words] and [e_verbs] (with [earnings_words]), [f_words] and
    [f_verbs] (with [forward_words]). *)
Definition doc_verbs (fuel : nat) (words : list string) (d : Doc)
    : option (PyDict.dict tokid tokid) :=
  verbs_of fuel d (lexicon_match d (doc_toks d) words) [].

(** ** The instances of one sentence *)

(** What the two nested loops of [find_sentence] append for the sentence
    [s], written as one comprehension over the topic words and the
    forward words of [s]. *)
Definition sentence_instances (fuel : nat) (earnings_words forward_words : list string)
    (d : Doc) (s : Span) : list Instance :=
  flat_map
    (fun e =>
       flat_map
         (fun f =>
            match get_verb fuel d e, get_verb fuel d f with
            | Some ev, Some fv =>
                if Nat.eqb ev fv
                then [(text (token d e), text (token d f), ev)]
                else []
            | _, _ => []
            end)
         (lexicon_match d (span_toks s) forward_words))
    (lexicon_match d (span_toks s) earnings_words).

(** The entry of a sentence in [return_items]: none when the sentence
    has no instance. *)
Definition sentence_entry (fuel : nat) (earnings_words forward_words : list string)
    (d : Doc) (s : Span) : option (Span * list Instance) :=
  match sentence_instances fuel earnings_words forward_words d s with
  | [] => None
  | l => Some (s, l)
  end.

(** [w] is a token with the label nsubj. *)
Definition is_nsubj (d : Doc) (w : tokid) : Prop := dep_ (token d w) = "nsubj".

Global Instance is_nsubj_dec d w : Decision (is_nsubj d w).
Proof. unfold is_nsubj. apply _. Defined.

(** ** Basic facts about [get_verb] *)

(** Case analysis on a member of a list that evaluates to a literal. *)
Ltac list_cases H :=
  vm_compute in H;
  repeat (apply elem_of_cons in H as [->|H]);
  try (by apply elem_of_nil in H).

(** Membership in a list that evaluates to a literal. *)
Ltac in_list :=
  vm_compute; repeat first [apply list_elem_of_here | apply list_elem_of_further].

Lemma chain_succ_r d w k : chain d w (S k) = head (token d (chain d w k)).
Proof.
  revert w. induction k as [|k IH]; intros w; [reflexivity|].
  change (chain d w (S (S k))) with (chain d (head (token d w)) (S k)).
  rewrite IH. reflexivity.
Qed.

Lemma chain_in d toks root w k :
  wf_tree d toks root -> w ∈ toks -> chain d w k ∈ toks.
Proof.
  intros Hwf. revert w. induction k as [|k IH]; intros w Hw; simpl; [done|].
  apply IH. by apply (wf_head_in _ _ _ Hwf).
Qed.

Lemma get_verb_first d w k :
  first_main_verb d w k ->
  forall fuel, k < fuel -> get_verb fuel d w = Some (chain d w k).
Proof.
  revert w. induction k as [|k IH]; intros w [Hk Hlt] fuel Hfuel.
  - destruct fuel as [|fuel]; [lia|]. simpl in *. by rewrite Hk.
  - destruct fuel as [|fuel]; [lia|]. simpl.
    pose proof (Hlt 0 ltac:(lia)) as H0. simpl in H0. rewrite H0.
    apply IH; [|lia].
    split; [exact Hk|]. intros j Hj. apply (Hlt (S j)). lia.
Qed.

Lemma get_verb_running d w fuel :
  (forall j, j < fuel -> is_main_verb d (chain d w j) = false) ->
  get_verb fuel d w = None.
Proof.
  revert w. induction fuel as [|fuel IH]; intros w Hno; [reflexivity|].
  pose proof (Hno 0 ltac:(lia)) as H0. simpl in *. rewrite H0. apply IH.
  intros j Hj. apply (Hno (S j)). lia.
Qed.

Lemma get_verb_sound d fuel w v :
  get_verb fuel d w = Some v ->
  exists k, k < fuel /\ v = chain d w k /\ first_main_verb d w k.
Proof.
  revert w. induction fuel as [|fuel IH]; intros w H; [discriminate|].
  simpl in H. destruct (is_main_verb d w) eqn:Hw.
  - injection H as <-. exists 0. split; [lia|]. split; [reflexivity|].
    split; [exact Hw|]. intros j Hj. lia.
  - destruct (IH _ H) as (k & Hk & -> & Hv & Hlt).
    exists (S k). split; [lia|]. split; [reflexivity|].
    split; [exact Hv|]. intros [|j] Hj; [exact Hw|]. apply Hlt. lia.
Qed.

Lemma get_verb_mono d fuel fuel' w v :
  get_verb fuel d w = Some v -> fuel <= fuel' -> get_verb fuel' d w = Some v.
Proof.
  intros H Hle. destruct (get_verb_sound _ _ _ _ H) as (k & Hk & -> & Hf).
  apply get_verb_first; [exact Hf|lia].
Qed.

Lemma get_verb_returns_fun d w v1 v2 :
  get_verb_returns d w v1 -> get_verb_returns d w v2 -> v1 = v2.
Proof.
  intros [n1 H1] [n2 H2].
  apply (get_verb_mono _ _ (n1 `max` n2)) in H1; [|lia].
  apply (get_verb_mono _ _ (n1 `max` n2)) in H2; [|lia].
  congruence.
Qed.

Lemma is_main_verb_spec d h :
  is_main_verb d h = true <->
  pos_ (token d h) = "VERB" /\ dep_ (token d h) <> "aux".
Proof.
  unfold is_main_verb. rewrite andb_true_iff, negb_true_iff.
  rewrite String.eqb_eq, String.eqb_neq. reflexivity.
Qed.

(** The least position at which a decidable property of the chain holds. *)
Lemma first_main_verb_exists d w n :
  is_main_verb d (chain d w n) = true ->
  exists k, k <= n /\ first_main_verb d w k.
Proof.
  revert w. induction n as [|n IH]; intros w Hn.
  - exists 0. split; [lia|]. split; [exact Hn|]. intros j Hj. lia.
  - destruct (is_main_verb d w) eqn:Hw.
    + exists 0. split; [lia|]. split; [exact Hw|]. intros j Hj. lia.
    + destruct (IH _ Hn) as (k & Hk & Hv & Hlt).
      exists (S k). split; [lia|]. split; [exact Hv|].
      intros [|j] Hj; [exact Hw|]. apply Hlt. lia.
Qed.


(** ** The governing verb *)

(** A token that satisfies the loop condition is returned at once. *)
Lemma get_verb_self d w n :
  is_main_verb d w = true -> get_verb (S n) d w = Some w.
Proof. intros H. simpl. by rewrite H. Qed.

(** Once the head chain is at a token that is its own head it stays
    there. *)
Lemma chain_fixed d r k : head (token d r) = r -> chain d r k = r.
Proof. intros Hr. induction k as [|k IH]; simpl; [done|]. by rewrite Hr. Qed.

Lemma chain_add d w j k : chain d w (j + k) = chain d (chain d w j) k.
Proof. revert w. induction j as [|j IH]; intros w; simpl; [done|]. apply IH. Qed.

Lemma chain_stays_at_root d toks root w :
  wf_tree d toks root -> w ∈ toks ->
  exists k, forall j, k <= j -> chain d w j = root.
Proof.
  intros Hwf Hw. destruct (wf_reaches_root _ _ _ Hwf w Hw) as [k Hk].
  exists k. intros j Hj. replace j with (k + (j - k)) by lia.
  rewrite chain_add, Hk. apply chain_fixed, (wf_root_self _ _ _ Hwf).
Qed.

Lemma fragment_doc_wf : wf_tree fragment_doc (span_toks (0, 4)) 2.
Proof.
  split.
  - in_list.
  - reflexivity.
  - intros w Hw. vm_compute in Hw.
    repeat (apply elem_of_cons in Hw as [->|Hw]; [in_list|]).
    by apply elem_of_nil in Hw.
  - intros w Hw. vm_compute in Hw. exists 1.
    repeat (apply elem_of_cons in Hw as [->|Hw]; [reflexivity|]).
    by apply elem_of_nil in Hw.
Qed.

Lemma fragment_doc_no_main_verb k :
  is_main_verb fragment_doc (chain fragment_doc 1 k) = false.
Proof.
  destruct k as [|k]; [reflexivity|].
  change (chain fragment_doc 1 (S k)) with (chain fragment_doc 2 k).
  by rewrite chain_fixed.
Qed.

(** C1 (as stated, refuted): in "Strong earnings growth." the head chain
    of "earnings" is a well-formed tree path without a main verb, and
    [get_verb] does not return the root "growth". *)
Lemma get_verb_root_not_returned :
  wf_tree fragment_doc (span_toks (0, 4)) 2 /\
  1 ∈ span_toks (0, 4) /\
  (forall k, is_main_verb fragment_doc (chain fragment_doc 1 k) = false) /\
  ~ get_verb_returns fragment_doc 1 2.
Proof.
  split; [exact fragment_doc_wf|].
  split; [in_list|].
  split; [exact fragment_doc_no_main_verb|].
  intros [fuel H].
  rewrite get_verb_running in H; [discriminate|].
  intros j _. apply fragment_doc_no_main_verb.
Qed.

(** C1 (amended): for a token of a well-formed dependency tree whose head
    chain contains no token tagged VERB with a label other than aux,
    [get_verb] does not return: the walk arrives at the root and stays
    there, and the loop is still running after any number of
    iterations. *)
Theorem get_verb_without_main_verb_never_returns d toks root w :
  wf_tree d toks root -> w ∈ toks ->
  (forall k, is_main_verb d (chain d w k) = false) ->
  (forall fuel, get_verb fuel d w = None) /\
  (exists k, forall j, k <= j -> chain d w j = root) /\
  is_main_verb d root = false.
Proof.
  intros Hwf Hw Hno. split; [|split].
  - intros fuel. apply get_verb_running. intros j _. apply Hno.
  - by apply (chain_stays_at_root d toks).
  - destruct (wf_reaches_root _ _ _ Hwf w Hw) as [k <-]. apply Hno.
Qed.

Lemma get_verb_without_main_verb_never_returns_witness :
  (forall fuel, get_verb fuel fragment_doc 1 = None) /\
  (exists k, forall j, k <= j -> chain fragment_doc 1 j = 2) /\
  is_main_verb fragment_doc 2 = false.
Proof.
  apply (get_verb_without_main_verb_never_returns
           fragment_doc (span_toks (0, 4)) 2 1).
  - exact fragment_doc_wf.
  - in_list.
  - exact fragment_doc_no_main_verb.
Defined.

(** C2: for a token of a well-formed dependency tree whose head chain
    contains a token tagged VERB with a label other than aux, [get_verb]
    returns the first such token of the chain, the chain starting at the
    token itself; the token returned lies in the tree, is tagged VERB and
    its label is not aux. *)
Theorem get_verb_first_main_verb d toks root w :
  wf_tree d toks root -> w ∈ toks ->
  (exists n, is_main_verb d (chain d w n) = true) ->
  exists k,
    first_main_verb d w k /\
    (forall fuel, k < fuel -> get_verb fuel d w = Some (chain d w k)) /\
    get_verb_returns d w (chain d w k) /\
    chain d w k ∈ toks /\
    pos_ (token d (chain d w k)) = "VERB" /\
    dep_ (token d (chain d w k)) <> "aux".
Proof.
  intros Hwf Hw [n Hn].
  destruct (first_main_verb_exists d w n Hn) as (k & _ & Hk).
  exists k. split; [exact Hk|].
  split; [intros fuel Hfuel; by apply get_verb_first|].
  split; [exists (S k); apply get_verb_first; [exact Hk|lia]|].
  split; [by apply (chain_in d toks root)|].
  apply is_main_verb_spec, Hk.
Qed.

Lemma sent_doc_wf : wf_tree sent_doc (span_toks (0, 9)) 1.
Proof.
  split.
  - in_list.
  - reflexivity.
  - intros w Hw. vm_compute in Hw.
    repeat (apply elem_of_cons in Hw as [->|Hw]; [in_list|]).
    by apply elem_of_nil in Hw.
  - intros w Hw. vm_compute in Hw. exists 3.
    repeat (apply elem_of_cons in Hw as [->|Hw]; [reflexivity|]).
    by apply elem_of_nil in Hw.
Qed.

Lemma get_verb_first_main_verb_witness :
  exists k,
    first_main_verb sent_doc 3 k /\
    (forall fuel, k < fuel -> get_verb fuel sent_doc 3 = Some (chain sent_doc 3 k)) /\
    get_verb_returns sent_doc 3 (chain sent_doc 3 k) /\
    chain sent_doc 3 k ∈ span_toks (0, 9) /\
    pos_ (token sent_doc (chain sent_doc 3 k)) = "VERB" /\
    dep_ (token sent_doc (chain sent_doc 3 k)) <> "aux".
Proof.
  apply (get_verb_first_main_verb sent_doc (span_toks (0, 9)) 1 3).
  - exact sent_doc_wf.
  - in_list.
  - exists 1. reflexivity.
Defined.

(** C9: a token tagged VERB whose label is not aux is returned as it is,
    and whatever [get_verb] returns is returned again when [get_verb] is
    applied to it. *)
Theorem get_verb_idempotent d w :
  (pos_ (token d w) = "VERB" -> dep_ (token d w) <> "aux" ->
   forall n, get_verb (S n) d w = Some w) /\
  (forall fuel v, get_verb fuel d w = Some v ->
     get_verb fuel d v = Some v /\ forall n, get_verb (S n) d v = Some v).
Proof.
  split.
  - intros Hpos Hdep n. apply get_verb_self, is_main_verb_spec. done.
  - intros fuel v H.
    destruct (get_verb_sound _ _ _ _ H) as (k & Hk & -> & Hv & _).
    split; [|intros n; by apply get_verb_self].
    destruct fuel as [|fuel]; [lia|]. by apply get_verb_self.
Qed.

Lemma get_verb_idempotent_witness :
  (forall n, get_verb (S n) sent_doc 5 = Some 5) /\
  get_verb 2 sent_doc 5 = Some 5.
Proof.
  pose proof (get_verb_idempotent sent_doc 5) as [Hself _].
  pose proof (get_verb_idempotent sent_doc 3) as [_ Hidem].
  split.
  - apply Hself; [reflexivity|discriminate].
  - apply (Hidem 2 5). reflexivity.
Defined.

(** ** The lexicon matcher *)

Lemma str_in_spec x l : str_in x l = true <-> x ∈ l.
Proof.
  induction l as [|y l IH]; simpl.
  - split; [discriminate|]. by intros ?%elem_of_nil.
  - rewrite orb_true_iff, String.eqb_eq, IH, elem_of_cons. reflexivity.
Qed.

Lemma str_in_false x l : str_in x l = false <-> x ∉ l.
Proof. rewrite <- str_in_spec. by destruct (str_in x l). Qed.

(** A comprehension with a boolean guard keeps the elements on which the
    guard holds, in order. *)
Lemma comprehension_filter {A} (p : A -> bool) (P : A -> Prop)
    `{!forall x, Decision (P x)} (l : list A) :
  (forall x, p x = true <-> P x) -> List.filter p l = filter P l.
Proof.
  intros Hp. induction l as [|x l IH]; [reflexivity|].
  simpl. rewrite filter_cons, IH.
  destruct (p x) eqn:Hx, (decide (P x)) as [HP|HP]; try reflexivity.
  - destruct HP. by apply Hp.
  - apply Hp in HP. congruence.
Qed.

Lemma lexicon_match_filter d toks words :
  lexicon_match d toks words = filter (fun w => text (token d w) ∈ words) toks.
Proof. apply comprehension_filter. intros w. apply str_in_spec. Qed.

(** C7: the lexicon matcher returns the tokens of the sentence whose text
    is equal, as a string, to an entry of the word list: exactly those
    tokens, in the order of the sentence (the result is the sentence with
    the other tokens left out). *)
Theorem lexicon_match_exact d (toks : list tokid) (words : list string) :
  (forall w, w ∈ lexicon_match d toks words <->
             w ∈ toks /\ exists k, k ∈ words /\ text (token d w) = k) /\
  sublist (lexicon_match d toks words) toks /\
  lexicon_match d toks words = filter (fun w => text (token d w) ∈ words) toks.
Proof.
  split; [|split].
  - intros w. rewrite lexicon_match_filter, list_elem_of_filter. split.
    + intros [Hin Hw]. split; [exact Hw|]. by exists (text (token d w)).
    + intros [Hw (k & Hk & ->)]. done.
  - rewrite lexicon_match_filter. apply sublist_filter.
  - apply lexicon_match_filter.
Qed.

(** The match is case sensitive, and neither stems nor takes parts of
    words. *)
Example lexicon_match_no_fuzzy :
  str_in "Earnings" earnings_words = false /\
  str_in "earning" earnings_words = false /\
  str_in "dollars" earnings_words = false /\
  str_in "earnings" earnings_words = true.
Proof. repeat split. Qed.

(** ** Dictionaries *)

Section DictFacts.
Context {K V : Type} `{EqDecision K}.
Implicit Types (m : PyDict.dict K V) (k : K) (v : V).

Lemma dict_get_set_eq m k v : PyDict.get k (PyDict.set k v m) = Some v.
Proof.
  induction m as [|[k' v'] m IH]; cbn [PyDict.get PyDict.set].
  - by case_decide.
  - case_decide; cbn [PyDict.get]; by case_decide.
Qed.

Lemma dict_get_set_ne m k k' v :
  k <> k' -> PyDict.get k' (PyDict.set k v m) = PyDict.get k' m.
Proof.
  intros Hne. induction m as [|[k0 v0] m IH]; cbn [PyDict.get PyDict.set].
  - by case_decide.
  - case_decide; cbn [PyDict.get]; case_decide; congruence.
Qed.

Lemma dict_get_None m k : PyDict.get k m = None <-> k ∉ PyDict.keys m.
Proof.
  induction m as [|[k' v'] m IH]; simpl.
  - split; [intros _ ?%elem_of_nil; done|done].
  - rewrite not_elem_of_cons. destruct (decide (k = k')) as [->|Hne].
    + split; [discriminate|]. by intros [? _].
    + rewrite IH. tauto.
Qed.

Lemma dict_keys_set m k v :
  PyDict.keys (PyDict.set k v m) =
  if decide (k ∈ PyDict.keys m) then PyDict.keys m else PyDict.keys m ++ [k].
Proof.
  unfold PyDict.keys.
  induction m as [|[k' v'] m IH]; cbn [PyDict.set map fst].
  - destruct (decide (k ∈ [])) as [Hin|_]; [by apply elem_of_nil in Hin|done].
  - destruct (decide (k = k')) as [->|Hne]; cbn [map fst].
    + destruct (decide (k' ∈ k' :: map fst m)) as [_|Hin]; [done|].
      destruct Hin. apply list_elem_of_here.
    + rewrite IH.
      destruct (decide (k ∈ map fst m)) as [Hin|Hin],
               (decide (k ∈ k' :: map fst m)) as [Hin'|Hin']; try done.
      * destruct Hin'. by apply list_elem_of_further.
      * apply elem_of_cons in Hin' as [?|?]; done.
Qed.

Lemma dict_set_NoDup m k v :
  NoDup (PyDict.keys m) -> NoDup (PyDict.keys (PyDict.set k v m)).
Proof.
  intros Hm. rewrite dict_keys_set. destruct (decide _) as [Hin|Hin]; [done|].
  apply NoDup_app. split; [done|]. split; [|apply NoDup_singleton].
  intros x Hx ->%list_elem_of_singleton. done.
Qed.

Lemma dict_entry_get m k v :
  NoDup (PyDict.keys m) -> (k, v) ∈ m <-> PyDict.get k m = Some v.
Proof.
  induction m as [|[k' v'] m IH]; simpl; intros Hnd.
  - split; [by intros ?%elem_of_nil|discriminate].
  - apply NoDup_cons in Hnd as [Hk' Hnd]. rewrite elem_of_cons.
    destruct (decide (k = k')) as [->|Hne].
    + split.
      * intros [[= ->]|Hin]; [done|]. destruct Hk'.
        apply list_elem_of_fmap. by exists (k', v).
      * intros [= ->]. by left.
    + rewrite <- (IH Hnd). split; [|tauto].
      intros [[= -> _]|Hin]; done.
Qed.
End DictFacts.

(** ** The subject of each verb *)

Lemma get_subjMap_scan d :
  get_subjMap d = fold_left (record_subject d) (doc_toks d) [].
Proof.
  unfold get_subjMap, doc_toks. generalize (@nil (tokid * tokid)).
  induction (sents d) as [|s ss IH]; intros m; simpl; [reflexivity|].
  rewrite fold_left_app. apply IH.
Qed.

Lemma record_subject_NoDup d m w :
  NoDup (PyDict.keys m) -> NoDup (PyDict.keys (record_subject d m w)).
Proof.
  intros Hm. unfold record_subject. destruct (String.eqb _ _); [|done].
  by apply dict_set_NoDup.
Qed.

Lemma record_subject_get d m w v :
  PyDict.get v (record_subject d m w) =
  if decide (subject_of d v w) then Some w else PyDict.get v m.
Proof.
  unfold record_subject, subject_of.
  destruct (String.eqb _ _) eqn:Hdep.
  - apply String.eqb_eq in Hdep.
    destruct (decide (head (token d w) = v)) as [<-|Hne].
    + rewrite dict_get_set_eq, decide_True; done.
    + rewrite dict_get_set_ne by done. rewrite decide_False; [done|]. tauto.
  - apply String.eqb_neq in Hdep. rewrite decide_False; [done|]. tauto.
Qed.

Lemma scan_subjects d toks m :
  NoDup (PyDict.keys m) ->
  NoDup (PyDict.keys (fold_left (record_subject d) toks m)) /\
  forall v, PyDict.get v (fold_left (record_subject d) toks m) =
            match last (filter (subject_of d v) toks) with
            | Some w => Some w
            | None => PyDict.get v m
            end.
Proof.
  revert m. induction toks as [|w toks IH] using rev_ind; intros m Hm.
  - simpl. done.
  - rewrite fold_left_app. simpl. destruct (IH m Hm) as [Hnd Hget].
    split; [by apply record_subject_NoDup|].
    intros v. rewrite record_subject_get, filter_app, filter_cons, filter_nil.
    destruct (decide (subject_of d v w)) as [Hs|Hs].
    + by rewrite last_snoc.
    + rewrite app_nil_r. apply Hget.
Qed.

(** C6: the map returned by [get_subjMap] has one entry per key, and the
    value stored under a key [v] is the last token, in the order in which
    the document is scanned, whose label is nsubj and whose head is [v];
    [v] is a key exactly when there is such a token. *)
Theorem get_subjMap_last_writer d :
  NoDup (PyDict.keys (get_subjMap d)) /\
  (forall v, PyDict.get v (get_subjMap d) =
             last (filter (subject_of d v) (doc_toks d))) /\
  (forall v w, (v, w) ∈ get_subjMap d <->
               last (filter (subject_of d v) (doc_toks d)) = Some w).
Proof.
  rewrite get_subjMap_scan.
  destruct (scan_subjects d (doc_toks d) [] (NoDup_nil_2)) as [Hnd Hget].
  assert (Hget' : forall v, PyDict.get v (fold_left (record_subject d) (doc_toks d) []) =
                    last (filter (subject_of d v) (doc_toks d))).
  { intros v. rewrite Hget. by destruct (last _). }
  split; [exact Hnd|]. split; [exact Hget'|].
  intros v w. rewrite dict_entry_get by exact Hnd. by rewrite Hget'.
Qed.

(** With two subjects for one verb the later one is kept. *)
Example get_subjMap_two_subjects :
  get_subjMap two_subjects_doc = [(3, 2)] /\
  get_subjMap sent_doc = [(1, 0); (5, 3)].
Proof. split; reflexivity. Qed.

(** ** The tone of a sentence *)

Lemma comprehension_none {A} (p : A -> bool) (l : list A) :
  (forall x, x ∈ l -> p x = false) -> List.filter p l = [].
Proof.
  induction l as [|x l IH]; intros H; [reflexivity|]. simpl.
  rewrite (H x) by apply list_elem_of_here.
  apply IH. intros y Hy. by apply H, list_elem_of_further.
Qed.

(** The notebook's sentence has one negative word and no positive word. *)
Example tone_of_sentence :
  tone positive_words negative_words
       "We had an awful quarter, sales have been terrible." = Return (inject_Z 1).
Proof. reflexivity. Qed.

(** C10: for a sentence none of whose words, as [split] yields them, is
    in the list of positive words or in the list of negative words, the
    computation of the tone raises ZeroDivisionError. *)
Theorem tone_without_tone_words pos neg (sentence : string) :
  (forall word, word ∈ split sentence -> (word ∉ pos) /\ (word ∉ neg)) ->
  tone pos neg sentence = Raise ZeroDivisionError.
Proof.
  intros H. unfold tone.
  rewrite !comprehension_none; [reflexivity| |].
  - intros word Hw. apply str_in_false, (H word Hw).
  - intros word Hw. apply str_in_false, (H word Hw).
Qed.

Lemma tone_without_tone_words_witness :
  tone positive_words negative_words
       "XYZ announced that earnings will increase this year."
  = Raise ZeroDivisionError.
Proof.
  apply tone_without_tone_words.
  intros word Hw. rewrite <- !str_in_false.
  vm_compute in Hw.
  repeat (apply elem_of_cons in Hw as [->|Hw]; [split; reflexivity|]).
  by apply elem_of_nil in Hw.
Defined.

(** ** Looking the speaker up *)

Lemma passive_doc_wf : wf_tree passive_doc (span_toks (0, 7)) 3.
Proof.
  split.
  - in_list.
  - reflexivity.
  - intros w Hw. vm_compute in Hw.
    repeat (apply elem_of_cons in Hw as [->|Hw]; [in_list|]).
    by apply elem_of_nil in Hw.
  - intros w Hw. vm_compute in Hw. exists 2.
    repeat (apply elem_of_cons in Hw as [->|Hw]; [reflexivity|]).
    by apply elem_of_nil in Hw.
Qed.

(** An instance whose verb has no recorded subject stops cell 16. *)
Lemma speakers_of_instances_raises instances subj_map e f v :
  (e, f, v) ∈ instances -> PyDict.get v subj_map = None ->
  exists k, speakers_of_instances instances subj_map = Raise (KeyError k) /\
            PyDict.get k subj_map = None.
Proof.
  induction instances as [|[[e' f'] v'] instances IH]; intros Hin Hv.
  - by apply elem_of_nil in Hin.
  - cbn [speakers_of_instances]. unfold subscript.
    destruct (PyDict.get v' subj_map) as [subj|] eqn:Hv'.
    + apply elem_of_cons in Hin as [[= -> -> ->]|Hin]; [congruence|].
      destruct (IH Hin Hv) as (k & -> & Hk). by exists k.
    + by exists v'.
Qed.

Lemma speakers_of_instances_error instances subj_map x :
  speakers_of_instances instances subj_map = Raise x ->
  exists k, x = KeyError k /\ PyDict.get k subj_map = None.
Proof.
  induction instances as [|[[e f] v] instances IH]; [discriminate|].
  cbn [speakers_of_instances]. unfold subscript.
  destruct (PyDict.get v subj_map) as [subj|] eqn:Hv; cbn.
  - destruct (speakers_of_instances instances subj_map); [discriminate|].
    intros [= <-]. by apply IH.
  - intros [= <-]. by exists v.
Qed.

Lemma speakers_raises values subj_map instances e f v :
  instances ∈ values -> (e, f, v) ∈ instances ->
  PyDict.get v subj_map = None ->
  exists k, speakers values subj_map = Raise (KeyError k) /\
            PyDict.get k subj_map = None.
Proof.
  induction values as [|l values IH]; intros Hl Hin Hv.
  - by apply elem_of_nil in Hl.
  - cbn [speakers].
    destruct (speakers_of_instances l subj_map) as [out1|x] eqn:Hout; cbn.
    + apply elem_of_cons in Hl as [->|Hl].
      * destruct (speakers_of_instances_raises _ _ _ _ _ Hin Hv) as (k & Hk & _).
        congruence.
      * destruct (IH Hl Hin Hv) as (k & -> & Hk). by exists k.
    + destruct (speakers_of_instances_error _ _ _ Hout) as (k & -> & Hk).
      by exists k.
Qed.

(** C8: there is a parsed document with an instance found by
    [find_sentence] whose verb is not a key of the map of [get_subjMap];
    on it the lookup [subj_map[v]] of cell 16 raises KeyError, and so
    does the lookup [subj_map[v.head]] of cell 12. Nothing catches the
    exception: it is the result of the cell. *)
Theorem subject_lookup_key_error :
  exists d s root found instances e f v e_verbs,
    wf_tree d (span_toks s) root /\ sents d = [s] /\
    find_sentence_returns earnings_words forward_words d found /\
    PyDict.get s found = Some instances /\
    (e, f, v) ∈ instances /\
    PyDict.get v (get_subjMap d) = None /\
    speakers (PyDict.values found) (get_subjMap d) = Raise (KeyError v) /\
    verbs_of 2 d (lexicon_match d (doc_toks d) earnings_words) [] = Some e_verbs /\
    speakers_of_verbs d e_verbs (get_subjMap d) = Raise (KeyError v).
Proof.
  exists passive_doc, (0, 7), 3, [((0, 7), [("earnings", "expected", 3)])],
    [("earnings", "expected", 3)], "earnings", "expected", 3, [(1, 3)].
  split; [exact passive_doc_wf|].
  split; [reflexivity|].
  split; [by exists 2|].
  split; [reflexivity|].
  split; [apply list_elem_of_here|].
  repeat split.
Qed.

(** ** The sentence of cell 7 *)

(** C4: on the parse of "XYZ announced that earnings will increase this
    year." printed in cell 7, with the topic words {earnings} and the
    forward words {will}, [find_sentence] returns one sentence with one
    instance, (earnings, will, increase); so it does with the word lists
    of the notebook. Two iterations of each [get_verb] loop suffice. *)
Theorem find_sentence_sent_doc n :
  find_sentence (2 + n) ["earnings"] ["will"] sent_doc
    = Some [((0, 9), [("earnings", "will", 5)])] /\
  find_sentence (2 + n) earnings_words forward_words sent_doc
    = Some [((0, 9), [("earnings", "will", 5)])] /\
  text (token sent_doc 5) = "increase" /\
  text (token sent_doc 3) = "earnings" /\
  text (token sent_doc 4) = "will".
Proof. repeat split. Qed.

(** ** Pairs of a topic word and a forward word *)

Lemma dict_set_fresh {K V} `{EqDecision K} (m : PyDict.dict K V) k v :
  k ∉ PyDict.keys m -> PyDict.set k v m = m ++ [(k, v)].
Proof.
  unfold PyDict.keys.
  induction m as [|[k' v'] m IH]; cbn [PyDict.set map fst app]; intros Hk; [done|].
  apply not_elem_of_cons in Hk as [Hne Hk].
  destruct (decide (k = k')); [done|]. by rewrite IH.
Qed.

(** The dictionary comprehension over distinct tokens: one entry per
    token, in order, when every call of [get_verb] returns. *)
Lemma verbs_of_returns fuel d ws acc :
  NoDup ws -> (forall w, w ∈ ws -> w ∉ PyDict.keys acc) ->
  (forall w, w ∈ ws -> is_Some (get_verb fuel d w)) ->
  exists l, verbs_of fuel d ws acc = Some (acc ++ l) /\
            forall e ev, (e, ev) ∈ l <-> e ∈ ws /\ get_verb fuel d e = Some ev.
Proof.
  revert acc. induction ws as [|w ws IH]; intros acc Hnd Hfresh Hret.
  - exists []. rewrite app_nil_r. split; [done|].
    intros e ev. rewrite !elem_of_nil. tauto.
  - apply NoDup_cons in Hnd as [Hw Hnd].
    destruct (Hret w (list_elem_of_here _ _)) as [v Hv].
    cbn [verbs_of]. rewrite Hv. cbn.
    rewrite dict_set_fresh by (apply Hfresh, list_elem_of_here).
    destruct (IH (acc ++ [(w, v)]) Hnd) as (l & Hl & Hspec).
    + intros w' Hw'. unfold PyDict.keys. rewrite map_app, elem_of_app.
      intros [Hin|Hin].
      * by apply (Hfresh w'); [apply list_elem_of_further|].
      * apply list_elem_of_singleton in Hin. cbn in Hin. congruence.
    + intros w' Hw'. by apply Hret, list_elem_of_further.
    + exists ((w, v) :: l). rewrite Hl, <- app_assoc. split; [done|].
      intros e ev. rewrite !elem_of_cons, Hspec. split.
      * intros [[= -> ->]|[He Hev]]; [by split; [left|]|by split; [right|]].
      * intros [[->|He] Hev]; [left; congruence|by right].
Qed.

(** One call that does not return keeps the comprehension from
    returning. *)
Lemma verbs_of_running fuel d ws acc w :
  w ∈ ws -> get_verb fuel d w = None -> verbs_of fuel d ws acc = None.
Proof.
  revert acc. induction ws as [|w' ws IH]; intros acc Hw Hnone.
  - by apply elem_of_nil in Hw.
  - cbn [verbs_of]. apply elem_of_cons in Hw as [<-|Hw].
    + by rewrite Hnone.
    + destruct (get_verb fuel d w'); [|done]. cbn. by apply IH.
Qed.

Lemma emit_get s inst ri s' :
  PyDict.get s' (emit s inst ri) =
  if decide (s = s') then Some (default [] (PyDict.get s ri) ++ [inst])
  else PyDict.get s' ri.
Proof.
  unfold emit. destruct (decide (s = s')) as [<-|Hne].
  - destruct (PyDict.get s ri); by rewrite dict_get_set_eq.
  - destruct (PyDict.get s ri); by rewrite dict_get_set_ne.
Qed.

Lemma emit_emitted s inst ri s' inst' :
  emitted (emit s inst ri) s' inst' <->
  emitted ri s' inst' \/ (s' = s /\ inst' = inst).
Proof.
  unfold emitted. setoid_rewrite emit_get.
  destruct (decide (s = s')) as [<-|Hne].
  - split.
    + intros (l & [= <-] & Hin). apply elem_of_app in Hin as [Hin|Hin].
      * left. destruct (PyDict.get s ri) as [l0|]; [by exists l0|].
        by apply elem_of_nil in Hin.
      * right. by apply list_elem_of_singleton in Hin.
    + intros [(l & Hl & Hin)|[_ ->]].
      * rewrite Hl. eexists. split; [done|]. apply elem_of_app. by left.
      * eexists. split; [done|]. apply elem_of_app. right. apply list_elem_of_here.
  - split; [by left|]. intros [?|[? _]]; [done|congruence].
Qed.

Lemma emit_no_empty_entry s inst ri :
  no_empty_entry ri -> no_empty_entry (emit s inst ri).
Proof.
  intros Hri s' l. rewrite emit_get. destruct (decide (s = s')).
  - intros [= <-]. by destruct (default _ _).
  - apply Hri.
Qed.

(** The instances that the loops over [ep_verbs] and [fp_verbs] add. *)
Lemma match_pairs_emitted d s ep_verbs fp_verbs ri s' inst' :
  emitted (match_pairs d s ep_verbs fp_verbs ri) s' inst' <->
  emitted ri s' inst' \/
  (s' = s /\ exists e f v, (e, v) ∈ ep_verbs /\ (f, v) ∈ fp_verbs /\
                          inst' = (text (token d e), text (token d f), v)).
Proof.
  unfold match_pairs. revert ri.
  induction ep_verbs as [|[e ev] ep_verbs IH]; intros ri; cbn [fold_left].
  - split; [by left|]. intros [?|(_ & e & f & v & ?%elem_of_nil & _)]; done.
  - rewrite IH. clear IH.
    assert (Hinner : forall fp ri0,
      emitted (fold_left (fun ri '(f, fv) =>
                 if Nat.eqb ev fv
                 then emit s (text (token d e), text (token d f), ev) ri
                 else ri) fp ri0) s' inst' <->
      emitted ri0 s' inst' \/
      (s' = s /\ exists f, (f, ev) ∈ fp /\
                  inst' = (text (token d e), text (token d f), ev))).
    { induction fp as [|[f fv] fp IHfp]; intros ri0; cbn [fold_left].
      - split; [by left|]. intros [?|(_ & f & ?%elem_of_nil & _)]; done.
      - rewrite IHfp. destruct (Nat.eqb ev fv) eqn:Heq.
        + apply Nat.eqb_eq in Heq as <-. rewrite emit_emitted. split.
          * intros [[?|[-> ->]]|(-> & f' & Hf' & ->)]; [by left| |].
            -- right. split; [done|]. exists f. split; [apply list_elem_of_here|done].
            -- right. split; [done|]. exists f'. split; [by apply list_elem_of_further|done].
          * intros [?|(-> & f' & Hf' & ->)]; [by left; left|].
            apply elem_of_cons in Hf' as [[= ->]|Hf'].
            -- left. by right.
            -- right. split; [done|]. by exists f'.
        + apply Nat.eqb_neq in Heq. split.
          * intros [?|(-> & f' & Hf' & ->)]; [by left|].
            right. split; [done|]. exists f'. split; [by apply list_elem_of_further|done].
          * intros [?|(-> & f' & Hf' & ->)]; [by left|].
            apply elem_of_cons in Hf' as [[= -> ?]|Hf']; [done|].
            right. split; [done|]. by exists f'. }
    rewrite Hinner. split.
    + intros [[?|(-> & f & Hf & ->)]|(-> & e' & f & v & He' & Hf & ->)]; [by left| |].
      * right. split; [done|]. exists e, f, ev. split; [apply list_elem_of_here|done].
      * right. split; [done|]. exists e', f, v. split; [by apply list_elem_of_further|done].
    + intros [?|(-> & e' & f & v & He' & Hf & ->)]; [by left; left|].
      apply elem_of_cons in He' as [[= -> ->]|He'].
      * left. right. split; [done|]. by exists f.
      * right. split; [done|]. by exists e', f, v.
Qed.

Lemma match_pairs_no_empty_entry d s ep_verbs fp_verbs ri :
  no_empty_entry ri -> no_empty_entry (match_pairs d s ep_verbs fp_verbs ri).
Proof.
  unfold match_pairs. revert ri.
  induction ep_verbs as [|[e ev] ep_verbs IH]; intros ri Hri; cbn [fold_left]; [done|].
  apply IH. clear IH. revert ri Hri.
  induction fp_verbs as [|[f fv] fp_verbs IHfp]; intros ri Hri; cbn [fold_left]; [done|].
  apply IHfp. destruct (Nat.eqb ev fv); [|done]. by apply emit_no_empty_entry.
Qed.

Lemma lexicon_match_NoDup d s words : NoDup (lexicon_match d (span_toks s) words).
Proof. rewrite lexicon_match_filter. apply NoDup_filter, NoDup_seq. Qed.

Lemma lexicon_match_elem d toks words w :
  w ∈ lexicon_match d toks words <-> w ∈ toks /\ text (token d w) ∈ words.
Proof. rewrite lexicon_match_filter, list_elem_of_filter. tauto. Qed.

(** The loop over the sentences, when every call of [get_verb] it makes
    returns within [fuel] iterations. *)
Lemma find_sentence_from_returns fuel E F d ss ri :
  (forall s w, s ∈ ss -> w ∈ span_toks s -> matched E F d w ->
               is_Some (get_verb fuel d w)) ->
  exists r, find_sentence_from fuel E F d ss ri = Some r /\
    (no_empty_entry ri -> no_empty_entry r) /\
    forall s' inst', emitted r s' inst' <->
      emitted ri s' inst' \/
      (s' ∈ ss /\ exists e f v,
         inst' = (text (token d e), text (token d f), v) /\
         e ∈ span_toks s' /\ f ∈ span_toks s' /\
         text (token d e) ∈ E /\ text (token d f) ∈ F /\
         get_verb fuel d e = Some v /\ get_verb fuel d f = Some v).
Proof.
  revert ri. induction ss as [|s ss IH]; intros ri Hret.
  - exists ri. split; [done|]. split; [done|]. intros s' inst'.
    split; [by left|]. intros [?|[?%elem_of_nil _]]; done.
  - destruct (verbs_of_returns fuel d (lexicon_match d (span_toks s) E) [])
      as (le & Hle & Hle_spec).
    { apply lexicon_match_NoDup. }
    { intros w _ ?%elem_of_nil. done. }
    { intros w [Hw Ht]%lexicon_match_elem.
      apply (Hret s w); [apply list_elem_of_here|done|by left]. }
    destruct (verbs_of_returns fuel d (lexicon_match d (span_toks s) F) [])
      as (lf & Hlf & Hlf_spec).
    { apply lexicon_match_NoDup. }
    { intros w _ ?%elem_of_nil. done. }
    { intros w [Hw Ht]%lexicon_match_elem.
      apply (Hret s w); [apply list_elem_of_here|done|by right]. }
    destruct (IH (match_pairs d s le lf ri)) as (r & Hr & Hne & Hspec).
    { intros s0 w Hs0. apply Hret. by apply list_elem_of_further. }
    exists r. cbn [find_sentence_from]. rewrite Hle, Hlf. cbn.
    split; [exact Hr|].
    split; [intros Hri; by apply Hne, match_pairs_no_empty_entry|].
    intros s' inst'. rewrite Hspec, match_pairs_emitted. split.
    + intros [[?|(-> & e & f & v & He & Hf & ->)]|(Hs' & Hpair)]; [by left| |].
      * apply Hle_spec in He as [[He Hte]%lexicon_match_elem Hve].
        apply Hlf_spec in Hf as [[Hf Htf]%lexicon_match_elem Hvf].
        right. split; [apply list_elem_of_here|]. by exists e, f, v.
      * right. split; [by apply list_elem_of_further|done].
    + intros [?|(Hs' & e & f & v & -> & He & Hf & Hte & Htf & Hve & Hvf)];
        [by left; left|].
      apply elem_of_cons in Hs' as [->|Hs'].
      * left. right. split; [done|]. exists e, f, v.
        split; [apply Hle_spec; by rewrite lexicon_match_elem|].
        split; [apply Hlf_spec; by rewrite lexicon_match_elem|done].
      * right. split; [done|]. by exists e, f, v.
Qed.

(** One call of [get_verb] that does not return keeps [find_sentence]
    from returning, whatever the other sentences hold. *)
Lemma find_sentence_from_running fuel E F d ss ri s w :
  s ∈ ss -> w ∈ span_toks s -> matched E F d w ->
  get_verb fuel d w = None ->
  find_sentence_from fuel E F d ss ri = None.
Proof.
  revert ri. induction ss as [|s0 ss IH]; intros ri Hs Hw Hm Hnone.
  - by apply elem_of_nil in Hs.
  - cbn [find_sentence_from].
    destruct (verbs_of fuel d (lexicon_match d (span_toks s0) E) []) as [le|] eqn:Hle;
      [|done]. cbn.
    destruct (verbs_of fuel d (lexicon_match d (span_toks s0) F) []) as [lf|] eqn:Hlf;
      [|done]. cbn.
    apply elem_of_cons in Hs as [->|Hs]; [|by apply IH].
    destruct Hm as [Hm|Hm].
    + rewrite (verbs_of_running fuel d _ [] w) in Hle; [done| |done].
      by apply lexicon_match_elem.
    + rewrite (verbs_of_running fuel d _ [] w) in Hlf; [done| |done].
      by apply lexicon_match_elem.
Qed.

Lemma verbs_of_mono fuel fuel' d ws acc r :
  verbs_of fuel d ws acc = Some r -> fuel <= fuel' ->
  verbs_of fuel' d ws acc = Some r.
Proof.
  intros H Hle. revert acc H.
  induction ws as [|w ws IH]; intros acc H; [done|].
  cbn [verbs_of] in *. destruct (get_verb fuel d w) as [v|] eqn:Hv; [|done].
  rewrite (get_verb_mono _ _ fuel' _ _ Hv Hle). cbn in *. by apply IH.
Qed.

Lemma find_sentence_from_mono fuel fuel' E F d ss ri r :
  find_sentence_from fuel E F d ss ri = Some r -> fuel <= fuel' ->
  find_sentence_from fuel' E F d ss ri = Some r.
Proof.
  intros H Hle. revert ri H.
  induction ss as [|s ss IH]; intros ri H; [done|].
  cbn [find_sentence_from] in *.
  destruct (verbs_of fuel d (lexicon_match d (span_toks s) E) []) as [le|] eqn:Hle';
    [|done].
  rewrite (verbs_of_mono _ fuel' _ _ _ _ Hle' Hle). cbn in *.
  destruct (verbs_of fuel d (lexicon_match d (span_toks s) F) []) as [lf|] eqn:Hlf';
    [|done].
  rewrite (verbs_of_mono _ fuel' _ _ _ _ Hlf' Hle). cbn in *. by apply IH.
Qed.

Lemma find_sentence_returns_fun E F d r1 r2 :
  find_sentence_returns E F d r1 -> find_sentence_returns E F d r2 -> r1 = r2.
Proof.
  intros [n1 H1] [n2 H2]. unfold find_sentence in *.
  apply (find_sentence_from_mono _ (n1 `max` n2)) in H1; [|lia].
  apply (find_sentence_from_mono _ (n1 `max` n2)) in H2; [|lia].
  congruence.
Qed.

(** A number of iterations that is enough for every token of a list. *)
Lemma enough_fuel d (ws : list tokid) :
  (forall w, w ∈ ws -> exists v, get_verb_returns d w v) ->
  exists fuel, forall w, w ∈ ws -> is_Some (get_verb fuel d w).
Proof.
  induction ws as [|w ws IH]; intros H.
  - exists 0. by intros w ?%elem_of_nil.
  - destruct IH as [fuel1 Hfuel1].
    { intros w' Hw'. by apply H, list_elem_of_further. }
    destruct (H w (list_elem_of_here _ _)) as (v & fuel2 & Hv).
    exists (fuel1 `max` fuel2). intros w' [->|Hw']%elem_of_cons.
    + exists v. apply (get_verb_mono _ fuel2); [done|lia].
    + destruct (Hfuel1 w' Hw') as [v' Hv']. exists v'.
      apply (get_verb_mono _ fuel1); [done|lia].
Qed.

Lemma elem_of_doc_toks d w :
  w ∈ doc_toks d <-> exists s, s ∈ sents d /\ w ∈ span_toks s.
Proof.
  unfold doc_toks. rewrite list_elem_of_In, in_flat_map.
  by setoid_rewrite list_elem_of_In.
Qed.

(** [find_sentence] returns when [get_verb] returns on every token it is
    called on, and then holds the pairs that share their verb. *)
Lemma find_sentence_total E F d :
  (forall s w, s ∈ sents d -> w ∈ span_toks s -> matched E F d w ->
               exists v, get_verb_returns d w v) ->
  exists fuel r,
    find_sentence fuel E F d = Some r /\ no_empty_entry r /\
    forall s inst, emitted r s inst <->
                   s ∈ sents d /\ shared_verb_pair E F d s inst.
Proof.
  intros Hret.
  destruct (enough_fuel d (filter (matched E F d) (doc_toks d))) as [fuel Hfuel].
  { intros w [Hm Hw]%list_elem_of_filter.
    apply elem_of_doc_toks in Hw as (s & Hs & Hw). by apply (Hret s). }
  assert (Hfuel' : forall s w, s ∈ sents d -> w ∈ span_toks s ->
                     matched E F d w -> is_Some (get_verb fuel d w)).
  { intros s w Hs Hw Hm. apply Hfuel, list_elem_of_filter.
    split; [done|]. apply elem_of_doc_toks. by exists s. }
  destruct (find_sentence_from_returns fuel E F d (sents d) [] Hfuel')
    as (r & Hr & Hne & Hspec).
  exists fuel, r. split; [exact Hr|]. split; [by apply Hne|].
  intros s inst. rewrite Hspec. split.
  - intros [(l & [=] & _)|(Hs & e & f & v & -> & He & Hf & Hte & Htf & Hve & Hvf)].
    split; [done|]. exists e, f, v.
    repeat (split; [done|]). split; by exists fuel.
  - intros (Hs & e & f & v & -> & He & Hf & Hte & Htf & Hve & Hvf).
    right. split; [done|]. exists e, f, v. repeat (split; [done|]).
    destruct (Hfuel' s e Hs He) as [v1 Hv1]; [by left|].
    destruct (Hfuel' s f Hs Hf) as [v2 Hv2]; [by right|].
    rewrite Hv1, Hv2.
    split; f_equal; eapply get_verb_returns_fun; by eauto || by eexists.
Qed.

Lemma sent_then_fragment_doc_no_main_verb k :
  is_main_verb sent_then_fragment_doc (chain sent_then_fragment_doc 10 k) = false.
Proof.
  destruct k as [|k]; [reflexivity|].
  change (chain sent_then_fragment_doc 10 (S k))
    with (chain sent_then_fragment_doc 11 k).
  by rewrite chain_fixed.
Qed.

(** C3 (as stated, refuted): in the document made of the sentence of
    cell 7 and of "Strong earnings growth.", the tokens "earnings" and
    "will" of the first sentence are a topic word and a forward word on
    which [get_verb] returns the same token, and yet [find_sentence]
    holds no instance for them: it does not return, because [get_verb]
    does not return on "earnings" in the second sentence. *)
Lemma find_sentence_pair_not_emitted :
  wf_tree sent_then_fragment_doc (span_toks (0, 9)) 1 /\
  wf_tree sent_then_fragment_doc (span_toks (9, 13)) 11 /\
  (0, 9) ∈ sents sent_then_fragment_doc /\
  shared_verb_pair earnings_words forward_words sent_then_fragment_doc (0, 9)
    ("earnings", "will", 5) /\
  (forall fuel,
     find_sentence fuel earnings_words forward_words sent_then_fragment_doc = None) /\
  ~ (exists r,
       find_sentence_returns earnings_words forward_words sent_then_fragment_doc r /\
       emitted r (0, 9) ("earnings", "will", 5)).
Proof.
  assert (Hrun : forall fuel,
    find_sentence fuel earnings_words forward_words sent_then_fragment_doc = None).
  { intros fuel.
    apply (find_sentence_from_running _ _ _ _ _ _ (9, 13) 10).
    - in_list.
    - in_list.
    - left. in_list.
    - apply get_verb_running. intros j _. apply sent_then_fragment_doc_no_main_verb. }
  split; [|split; [|split; [|split; [|split]]]].
  - split.
    + in_list.
    + reflexivity.
    + intros w Hw. list_cases Hw; in_list.
    + intros w Hw. exists 3. list_cases Hw; reflexivity.
  - split.
    + in_list.
    + reflexivity.
    + intros w Hw. list_cases Hw; in_list.
    + intros w Hw. exists 1. list_cases Hw; reflexivity.
  - in_list.
  - exists 3, 4, 5. split; [reflexivity|].
    split; [in_list|]. split; [in_list|]. split; [in_list|]. split; [in_list|].
    split; by exists 2.
  - exact Hrun.
  - intros (r & [fuel Hr] & _). by rewrite Hrun in Hr.
Qed.

(** C3 (amended): for a parsed document in which the head chain of every
    token whose text is a topic word or a forward word contains a token
    tagged VERB with a label other than aux, [find_sentence] returns, its
    result is the same for every sufficient number of iterations, and the
    result holds an instance [(e.text, f.text, v)] under a sentence
    exactly when [e] and [f] are tokens of that sentence, the text of [e]
    is a topic word, the text of [f] is a forward word and [get_verb]
    returns the same token [v] on both; a sentence without such a pair is
    not a key of the result. *)
Theorem find_sentence_pairs E F d :
  (forall s w, s ∈ sents d -> w ∈ span_toks s -> matched E F d w ->
               exists n, is_main_verb d (chain d w n) = true) ->
  exists r,
    find_sentence_returns E F d r /\
    (forall r', find_sentence_returns E F d r' -> r' = r) /\
    (forall s inst, emitted r s inst <->
                    s ∈ sents d /\ shared_verb_pair E F d s inst) /\
    (forall s, PyDict.get s r = None <->
               ~ (s ∈ sents d /\ exists inst, shared_verb_pair E F d s inst)).
Proof.
  intros Hverb.
  destruct (find_sentence_total E F d) as (fuel & r & Hr & Hne & Hspec).
  { intros s w Hs Hw Hm. destruct (Hverb s w Hs Hw Hm) as [n Hn].
    destruct (first_main_verb_exists d w n Hn) as (k & _ & Hk).
    exists (chain d w k), (S k). apply get_verb_first; [done|lia]. }
  assert (Hret : find_sentence_returns E F d r) by by exists fuel.
  exists r. split; [exact Hret|].
  split; [intros r' Hr'; by apply (find_sentence_returns_fun E F d)|].
  split; [exact Hspec|].
  intros s. split.
  - intros Hnone (Hs & inst & Hpair).
    destruct (proj2 (Hspec s inst) (conj Hs Hpair)) as (l & Hl & _). congruence.
  - intros Hno. destruct (PyDict.get s r) as [l|] eqn:Hl; [|done].
    destruct l as [|inst l]; [by destruct (Hne s [] Hl)|].
    destruct Hno. assert (Hem : emitted r s inst).
    { exists (inst :: l). split; [done|apply list_elem_of_here]. }
    apply Hspec in Hem as [Hs Hpair]. split; [done|by exists inst].
Qed.

Lemma find_sentence_pairs_witness :
  exists r,
    find_sentence_returns earnings_words forward_words sent_doc r /\
    (forall r', find_sentence_returns earnings_words forward_words sent_doc r' ->
                r' = r) /\
    (forall s inst, emitted r s inst <->
       s ∈ sents sent_doc /\
       shared_verb_pair earnings_words forward_words sent_doc s inst) /\
    (forall s, PyDict.get s r = None <->
       ~ (s ∈ sents sent_doc /\
          exists inst, shared_verb_pair earnings_words forward_words sent_doc s inst)).
Proof.
  apply (find_sentence_pairs earnings_words forward_words sent_doc).
  intros s w Hs Hw _. list_cases Hs.
  list_cases Hw;
    first [by exists 0 | by exists 1 | by exists 2].
Defined.

(** ** The sentence of cell 5 *)

Lemma visible_texts_elem d s t :
  t ∈ visible_texts d s <->
  all_space t = false /\ exists w, w ∈ span_toks s /\ text (token d w) = t.
Proof.
  unfold visible_texts.
  rewrite list_elem_of_In, filter_In, in_map_iff, negb_true_iff.
  setoid_rewrite <- list_elem_of_In. split.
  - intros [(w & Ht & Hw) Hsp]. split; [done|]. by exists w.
  - intros [Hsp (w & Hw & Ht)]. split; [by exists w|done].
Qed.

(** Among the words of [bad_sent] only "earnings" is a topic word and
    only "will" is a forward word. *)
Lemma bad_sent_topic_word t :
  t ∈ earnings_words -> t ∈ bad_sent_words -> t = "earnings".
Proof.
  unfold earnings_words. rewrite !elem_of_cons, elem_of_nil.
  intros Ht Hin. decompose [or] Ht; subst; try done;
    apply str_in_spec in Hin; vm_compute in Hin; discriminate.
Qed.

Lemma bad_sent_forward_word t :
  t ∈ forward_words -> t ∈ bad_sent_words -> t = "will".
Proof.
  unfold forward_words. rewrite !elem_of_cons, elem_of_nil.
  intros Ht Hin. decompose [or] Ht; subst; try done;
    apply str_in_spec in Hin; vm_compute in Hin; discriminate.
Qed.

Lemma word_list_visible t :
  t ∈ earnings_words \/ t ∈ forward_words -> all_space t = false.
Proof.
  unfold earnings_words, forward_words. rewrite !elem_of_cons, !elem_of_nil.
  intros Ht. decompose [or] Ht; subst; done.
Qed.

(** C5: whatever the parse of "XYZ stated that although earnings had
    fallen last year, the board remained confident in how the new CEO
    will manage the company." as one sentence, if [get_verb] returns
    different tokens on its "earnings" and on its "will", then
    [find_sentence] returns the empty dictionary: no instance. *)
Theorem find_sentence_bad_sent d s :
  sents d = [s] ->
  visible_texts d s = bad_sent_words ->
  (forall e f, e ∈ span_toks s -> f ∈ span_toks s ->
     text (token d e) = "earnings" -> text (token d f) = "will" ->
     exists ve vf, get_verb_returns d e ve /\ get_verb_returns d f vf /\ ve <> vf) ->
  find_sentence_returns earnings_words forward_words d [] /\
  (forall r, find_sentence_returns earnings_words forward_words d r -> r = []).
Proof.
  intros Hsents Htexts Hdiff.
  assert (Hword : forall t, t ∈ bad_sent_words ->
            exists w, w ∈ span_toks s /\ text (token d w) = t).
  { intros t Ht. rewrite <- Htexts in Ht. by apply visible_texts_elem in Ht as [_ ?]. }
  assert (Hin : forall w, w ∈ span_toks s ->
            matched earnings_words forward_words d w ->
            text (token d w) ∈ bad_sent_words).
  { intros w Hw Hm. rewrite <- Htexts. apply visible_texts_elem.
    split; [by apply word_list_visible|by exists w]. }
  destruct (Hword "earnings") as (e0 & He0 & Hte0); [in_list|].
  destruct (Hword "will") as (f0 & Hf0 & Htf0); [in_list|].
  destruct (find_sentence_total earnings_words forward_words d)
    as (fuel & r & Hr & Hne & Hspec).
  { intros s0 w Hs0 Hw Hm. rewrite Hsents in Hs0.
    apply list_elem_of_singleton in Hs0 as ->.
    pose proof (Hin w Hw Hm) as Hbad. destruct Hm as [Hm|Hm].
    - destruct (Hdiff w f0 Hw Hf0) as (ve & _ & Hve & _); [|done|by exists ve].
      by apply bad_sent_topic_word.
    - destruct (Hdiff e0 w He0 Hw) as (_ & vf & _ & Hvf & _); [done| |by exists vf].
      by apply bad_sent_forward_word. }
  assert (Hempty : r = []).
  { destruct r as [|[s0 l] r]; [done|].
    assert (Hl : PyDict.get s0 ((s0, l) :: r) = Some l).
    { cbn [PyDict.get]. by case_decide. }
    destruct l as [|inst l]; [by destruct (Hne s0 [] Hl)|].
    assert (Hem : emitted ((s0, inst :: l) :: r) s0 inst).
    { exists (inst :: l). split; [done|apply list_elem_of_here]. }
    apply Hspec in Hem as [Hs0 (e & f & v & _ & He & Hf & Hte & Htf & Hve & Hvf)].
    rewrite Hsents in Hs0. apply list_elem_of_singleton in Hs0 as ->.
    destruct (Hdiff e f He Hf) as (ve & vf & Hve' & Hvf' & Hneq).
    - apply bad_sent_topic_word; [done|]. apply Hin; [done|by left].
    - apply bad_sent_forward_word; [done|]. apply Hin; [done|by right].
    - destruct Hneq.
      rewrite (get_verb_returns_fun _ _ _ _ Hve' Hve).
      by rewrite (get_verb_returns_fun _ _ _ _ Hvf' Hvf). }
  subst r.
  assert (Hret : find_sentence_returns earnings_words forward_words d [])
    by by exists fuel.
  split; [exact Hret|].
  intros r Hr'. by apply (find_sentence_returns_fun earnings_words forward_words d).
Qed.

Lemma find_sentence_bad_sent_witness :
  find_sentence_returns earnings_words forward_words bad_sent_doc [] /\
  (forall r, find_sentence_returns earnings_words forward_words bad_sent_doc r ->
             r = []).
Proof.
  apply (find_sentence_bad_sent bad_sent_doc (0, 25)).
  - reflexivity.
  - reflexivity.
  - intros e f He Hf Hte Htf.
    list_cases He; try discriminate Hte.
    list_cases Hf; try discriminate Htf.
    exists 6, 21. split; [by exists 2|]. split; [by exists 2|]. lia.
Defined.

(** * Further properties of the notebook's code *)

(** ** [get_verb] on a sentence whose root is a verb *)

Lemma get_verb_step d w fuel :
  is_main_verb d w = false ->
  get_verb (S fuel) d w = get_verb fuel d (head (token d w)).
Proof. intros H. simpl. by rewrite H. Qed.

(** X1: in a well-formed tree whose root is tagged VERB with a label
    other than aux, [get_verb] returns on every token, within one
    iteration more than the token is away from the root; the token
    returned is on the head chain, lies in the sentence and passes the
    test of the loop. *)
Theorem get_verb_returns_under_verb_root d toks root w :
  wf_tree d toks root -> is_main_verb d root = true -> w ∈ toks ->
  (forall k, chain d w k = root -> is_Some (get_verb (S k) d w)) /\
  exists v j, get_verb_returns d w v /\ v = chain d w j /\
              v ∈ toks /\ is_main_verb d v = true.
Proof.
  intros Hwf Hroot Hw.
  assert (Hk : forall k, chain d w k = root ->
            exists j, j <= k /\ first_main_verb d w j).
  { intros k Hk. apply first_main_verb_exists. by rewrite Hk. }
  split.
  - intros k Hreach. destruct (Hk k Hreach) as (j & Hj & Hf).
    exists (chain d w j). apply get_verb_first; [done|lia].
  - destruct (wf_reaches_root _ _ _ Hwf w Hw) as [k Hreach].
    destruct (Hk k Hreach) as (j & Hj & Hf).
    exists (chain d w j), j. split; [|split; [done|split]].
    + exists (S j). apply get_verb_first; [done|lia].
    + by apply (chain_in d toks root).
    + apply Hf.
Qed.

Lemma get_verb_returns_under_verb_root_witness :
  (forall k, chain sent_doc 6 k = 1 -> is_Some (get_verb (S k) sent_doc 6)) /\
  exists v j, get_verb_returns sent_doc 6 v /\ v = chain sent_doc 6 j /\
              v ∈ span_toks (0, 9) /\ is_main_verb sent_doc v = true.
Proof.
  apply (get_verb_returns_under_verb_root sent_doc (span_toks (0, 9)) 1 6).
  - exact sent_doc_wf.
  - reflexivity.
  - in_list.
Defined.

Lemma get_verb_returns_head d w v :
  is_main_verb d w = false ->
  get_verb_returns d w v <-> get_verb_returns d (head (token d w)) v.
Proof.
  intros Hw. split.
  - intros [[|fuel] H]; [discriminate|]. rewrite get_verb_step in H by done.
    by exists fuel.
  - intros [fuel H]. exists (S fuel). by rewrite get_verb_step.
Qed.

(** X2: a token that does not pass the test of the loop has the
    governing verb of its head, so two such tokens with the same head
    have the same governing verb (or [get_verb] returns on neither). *)
Theorem get_verb_of_siblings d e f :
  is_main_verb d e = false -> is_main_verb d f = false ->
  head (token d e) = head (token d f) ->
  (forall v, get_verb_returns d e v <-> get_verb_returns d (head (token d e)) v) /\
  (forall v, get_verb_returns d e v <-> get_verb_returns d f v) /\
  (forall fuel, get_verb fuel d e = get_verb fuel d f).
Proof.
  intros He Hf Hhead. split; [|split].
  - intros v. by apply get_verb_returns_head.
  - intros v. rewrite (get_verb_returns_head d e), (get_verb_returns_head d f) by done.
    by rewrite Hhead.
  - intros [|fuel]; [done|].
    rewrite (get_verb_step d e), (get_verb_step d f) by done. by rewrite Hhead.
Qed.

Lemma get_verb_of_siblings_witness :
  (forall v, get_verb_returns sent_doc 3 v <->
             get_verb_returns sent_doc (head (token sent_doc 3)) v) /\
  (forall v, get_verb_returns sent_doc 3 v <-> get_verb_returns sent_doc 4 v) /\
  (forall fuel, get_verb fuel sent_doc 3 = get_verb fuel sent_doc 4).
Proof.
  apply (get_verb_of_siblings sent_doc 3 4); reflexivity.
Defined.

(** ** The dictionary comprehensions [e_verbs], [f_verbs] *)

Lemma verbs_of_is_Some fuel d ws acc :
  (forall w, w ∈ ws -> is_Some (get_verb fuel d w)) ->
  is_Some (verbs_of fuel d ws acc).
Proof.
  revert acc. induction ws as [|w ws IH]; intros acc H; [by eexists|].
  cbn [verbs_of]. destruct (H w (list_elem_of_here _ _)) as [v ->]. cbn.
  apply IH. intros w' Hw'. by apply H, list_elem_of_further.
Qed.

Lemma verbs_of_lookup_acc fuel d ws acc r :
  verbs_of fuel d ws acc = Some r -> NoDup (PyDict.keys acc) ->
  NoDup (PyDict.keys r) /\
  forall w, PyDict.get w r =
            if decide (w ∈ ws) then get_verb fuel d w else PyDict.get w acc.
Proof.
  revert acc. induction ws as [|w0 ws IH]; intros acc Hr Hnd.
  - injection Hr as <-. split; [done|]. intros w.
    destruct (decide (w ∈ [])) as [?%elem_of_nil|]; done.
  - cbn [verbs_of] in Hr. destruct (get_verb fuel d w0) as [v0|] eqn:Hv0; [|done].
    cbn in Hr. destruct (IH _ Hr (dict_set_NoDup acc w0 v0 Hnd)) as [Hnd' Hget].
    split; [done|]. intros w. rewrite Hget.
    destruct (decide (w ∈ ws)) as [Hin|Hin].
    + rewrite decide_True; [done|]. by apply list_elem_of_further.
    + destruct (decide (w = w0)) as [->|Hne].
      * rewrite dict_get_set_eq, decide_True; [done|apply list_elem_of_here].
      * rewrite dict_get_set_ne by done. rewrite decide_False; [done|].
        rewrite elem_of_cons. tauto.
Qed.

(** X3: the comprehension [{w: get_verb(w) for w in ws}] returns exactly
    when [get_verb] returns on every word; its keys are the words, each
    once, and looking a word up gives what [get_verb] returns on it, a
    token that passes the test of the loop. *)
Theorem verbs_of_lookup fuel d (ws : list tokid) :
  (is_Some (verbs_of fuel d ws []) <->
   forall w, w ∈ ws -> is_Some (get_verb fuel d w)) /\
  forall r, verbs_of fuel d ws [] = Some r ->
    NoDup (PyDict.keys r) /\
    (forall w, w ∈ PyDict.keys r <-> w ∈ ws) /\
    (forall w v, PyDict.get w r = Some v <->
                 w ∈ ws /\ get_verb fuel d w = Some v) /\
    (forall w v, (w, v) ∈ r -> is_main_verb d v = true).
Proof.
  split.
  - split; [|apply verbs_of_is_Some].
    intros [r Hr] w Hw. destruct (get_verb fuel d w) eqn:Hv; [by eexists|].
    by rewrite (verbs_of_running fuel d ws [] w Hw Hv) in Hr.
  - intros r Hr.
    destruct (verbs_of_lookup_acc fuel d ws [] r Hr (NoDup_nil_2)) as [Hnd Hget].
    assert (Hlook : forall w v, PyDict.get w r = Some v <->
                      w ∈ ws /\ get_verb fuel d w = Some v).
    { intros w v. rewrite Hget. destruct (decide (w ∈ ws)); cbn; [tauto|].
      split; [discriminate|tauto]. }
    split; [done|]. split; [|split; [done|]].
    + intros w. destruct (decide (w ∈ ws)) as [Hin|Hin].
      * split; [done|]. intros _.
        destruct (decide (w ∈ PyDict.keys r)) as [|Hk]; [done|].
        apply dict_get_None in Hk. rewrite Hget, decide_True in Hk by done.
        assert (is_Some (get_verb fuel d w)) as [v Hv]; [|congruence].
        destruct (get_verb fuel d w) eqn:Hv; [by eexists|].
        by rewrite (verbs_of_running fuel d ws [] w Hin Hv) in Hr.
      * split; [|done]. intros Hk. destruct Hin.
        destruct (PyDict.get w r) as [v|] eqn:Hw.
        -- by apply Hlook in Hw as [? _].
        -- by apply dict_get_None in Hw.
    + intros w v Hin. apply dict_entry_get in Hin; [|done].
      apply Hlook in Hin as [_ Hv].
      destruct (get_verb_sound _ _ _ _ Hv) as (k & _ & -> & Hk & _). done.
Qed.

(** ** More on the map of subjects *)

Lemma get_subjMap_get d :
  NoDup (PyDict.keys (get_subjMap d)) /\
  forall v, PyDict.get v (get_subjMap d) =
            last (filter (subject_of d v) (doc_toks d)).
Proof.
  rewrite get_subjMap_scan.
  destruct (scan_subjects d (doc_toks d) [] (NoDup_nil_2)) as [Hnd Hget].
  split; [done|]. intros v. rewrite Hget. by destruct (last _).
Qed.

(** X4: every entry of the map of [get_subjMap] pairs a token of the
    document labelled nsubj with its head; a token is a key exactly when
    it is the head of such a token, and the map is empty exactly when the
    document has no token labelled nsubj. *)
Theorem get_subjMap_entries d :
  (forall v w, (v, w) ∈ get_subjMap d ->
     w ∈ doc_toks d /\ is_nsubj d w /\ head (token d w) = v) /\
  (forall v, v ∈ PyDict.keys (get_subjMap d) <->
     exists w, w ∈ doc_toks d /\ is_nsubj d w /\ head (token d w) = v) /\
  (get_subjMap d = [] <-> forall w, w ∈ doc_toks d -> ~ is_nsubj d w).
Proof.
  destruct (get_subjMap_get d) as [Hnd Hget].
  assert (Hkey : forall v, v ∈ PyDict.keys (get_subjMap d) <->
     exists w, w ∈ doc_toks d /\ is_nsubj d w /\ head (token d w) = v).
  { intros v. split.
    - intros Hv. destruct (PyDict.get v (get_subjMap d)) as [w|] eqn:Hw.
      + rewrite Hget in Hw. apply last_Some_elem_of, list_elem_of_filter in Hw.
        destruct Hw as [[Hdep Hhead] Hin]. by exists w.
      + by apply dict_get_None in Hw.
    - intros (w & Hin & Hdep & Hhead).
      destruct (decide (v ∈ PyDict.keys (get_subjMap d))) as [|Hk]; [done|].
      apply dict_get_None in Hk. rewrite Hget in Hk. apply last_None in Hk.
      assert (Hw : w ∈ filter (subject_of d v) (doc_toks d)).
      { apply list_elem_of_filter. by split. }
      rewrite Hk in Hw. by apply elem_of_nil in Hw. }
  split; [|split; [exact Hkey|]].
  - intros v w Hin. apply dict_entry_get in Hin; [|done].
    rewrite Hget in Hin. apply last_Some_elem_of, list_elem_of_filter in Hin.
    destruct Hin as [[Hdep Hhead] Hin]. done.
  - split.
    + intros Hempty w Hin Hdep.
      assert (Hk : head (token d w) ∈ PyDict.keys (get_subjMap d)).
      { apply Hkey. by exists w. }
      rewrite Hempty in Hk. by apply elem_of_nil in Hk.
    + intros Hno. destruct (get_subjMap d) as [|[v w] m]; [done|].
      assert (Hk : v ∈ PyDict.keys ((v, w) :: m)) by apply list_elem_of_here.
      apply Hkey in Hk as (w' & Hin & Hdep & _). by destruct (Hno w' Hin).
Qed.

Lemma record_subject_nsubj d m w :
  record_subject d m w =
  if decide (is_nsubj d w) then PyDict.set (head (token d w)) w m else m.
Proof.
  unfold record_subject, is_nsubj.
  destruct (decide _) as [Hw|Hw].
  - by rewrite Hw.
  - apply String.eqb_neq in Hw. by rewrite Hw.
Qed.

Lemma scan_subjects_fresh d toks m :
  NoDup (PyDict.keys m
         ++ map (fun w => head (token d w)) (filter (is_nsubj d) toks)) ->
  fold_left (record_subject d) toks m =
  m ++ map (fun w => (head (token d w), w)) (filter (is_nsubj d) toks).
Proof.
  revert m. induction toks as [|w toks IH]; intros m Hnd; cbn [fold_left].
  - by rewrite filter_nil, app_nil_r.
  - rewrite filter_cons in *. rewrite record_subject_nsubj.
    destruct (decide (is_nsubj d w)) as [Hw|Hw]; [|by apply IH].
    cbn [map] in *.
    assert (Hfresh : head (token d w) ∉ PyDict.keys m).
    { apply NoDup_app in Hnd as (_ & Hdisj & _). intros Hin.
      apply (Hdisj _ Hin), list_elem_of_here. }
    rewrite dict_set_fresh by done. rewrite IH.
    + by rewrite <- app_assoc.
    + unfold PyDict.keys in *. rewrite map_app, <- app_assoc. done.
Qed.

(** X5: when no two tokens labelled nsubj have the same head, nothing is
    overwritten: the map of [get_subjMap] has one entry [(w.head, w)] for
    each token [w] labelled nsubj, in the order of the document. *)
Theorem get_subjMap_without_overwrite d :
  NoDup (map (fun w => head (token d w)) (filter (is_nsubj d) (doc_toks d))) ->
  get_subjMap d =
  map (fun w => (head (token d w), w)) (filter (is_nsubj d) (doc_toks d)).
Proof.
  intros Hnd. rewrite get_subjMap_scan. by rewrite scan_subjects_fresh.
Qed.

Lemma get_subjMap_without_overwrite_witness :
  get_subjMap sent_doc =
  map (fun w => (head (token sent_doc w), w))
      (filter (is_nsubj sent_doc) (doc_toks sent_doc)).
Proof.
  apply (get_subjMap_without_overwrite sent_doc).
  apply (bool_decide_unpack _). by vm_compute.
Defined.

(** X6: when a later token of the document is a nominal subject of the
    verb [v], an earlier token is not stored under [v], whether or not it
    is a subject of [v] too: the map keeps one of the later ones. *)
Theorem get_subjMap_earlier_subject_lost d l1 w1 l2 w2 l3 v :
  doc_toks d = l1 ++ w1 :: l2 ++ w2 :: l3 ->
  subject_of d v w2 -> w1 ∉ w2 :: l3 ->
  ((v, w1) ∉ get_subjMap d) /\
  exists w, w ∈ w2 :: l3 /\ PyDict.get v (get_subjMap d) = Some w.
Proof.
  intros Htoks Hw2 Hw1. destruct (get_subjMap_get d) as [Hnd Hget].
  assert (Hlast : exists w, w ∈ w2 :: l3 /\
                    PyDict.get v (get_subjMap d) = Some w).
  { rewrite Hget, Htoks.
    replace (l1 ++ w1 :: l2 ++ w2 :: l3) with ((l1 ++ w1 :: l2) ++ w2 :: l3)
      by by rewrite <- app_assoc.
    rewrite filter_app, last_app.
    destruct (last (filter (subject_of d v) (w2 :: l3))) as [w|] eqn:Hl.
    - exists w. split; [|done].
      by apply last_Some_elem_of, list_elem_of_filter in Hl as [_ ?].
    - apply last_None in Hl. rewrite filter_cons, decide_True in Hl by done.
      discriminate. }
  split; [|done]. intros Hin. apply dict_entry_get in Hin; [|done].
  destruct Hlast as (w & Hw & Hgetw). congruence.
Qed.

Lemma get_subjMap_earlier_subject_lost_witness :
  ((3, 0) ∉ get_subjMap two_subjects_doc) /\
  exists w, w ∈ [2; 3; 4] /\ PyDict.get 3 (get_subjMap two_subjects_doc) = Some w.
Proof.
  apply (get_subjMap_earlier_subject_lost two_subjects_doc [] 0 [1] 2 [3; 4] 3).
  - reflexivity.
  - split; reflexivity.
  - apply (bool_decide_unpack _). by vm_compute.
Defined.

(** ** The loops that look the speaker up *)

Lemma speakers_of_instances_cons i instances subj_map :
  speakers_of_instances (i :: instances) subj_map =
  match PyDict.get i.2 subj_map with
  | None => Raise (KeyError i.2)
  | Some subj =>
      match speakers_of_instances instances subj_map with
      | Return out => Return ((i, subj) :: out)
      | Raise x => Raise x
      end
  end.
Proof.
  destruct i as [[e f] v]. cbn [speakers_of_instances snd]. unfold subscript.
  by destruct (PyDict.get v subj_map).
Qed.

Lemma speakers_of_instances_app l1 l2 subj_map :
  speakers_of_instances (l1 ++ l2) subj_map =
  match speakers_of_instances l1 subj_map with
  | Raise x => Raise x
  | Return out1 =>
      match speakers_of_instances l2 subj_map with
      | Return out2 => Return (out1 ++ out2)
      | Raise x => Raise x
      end
  end.
Proof.
  induction l1 as [|i l1 IH].
  - cbn. by destruct (speakers_of_instances l2 subj_map).
  - rewrite <- app_comm_cons, !speakers_of_instances_cons, IH.
    destruct (PyDict.get i.2 subj_map); [|done].
    destruct (speakers_of_instances l1 subj_map); [|done].
    by destruct (speakers_of_instances l2 subj_map).
Qed.

(** The two nested loops of cell 16 are one pass over all instances. *)
Lemma speakers_concat values subj_map :
  speakers values subj_map = speakers_of_instances (concat values) subj_map.
Proof.
  induction values as [|l values IH]; [done|].
  cbn [speakers concat]. rewrite speakers_of_instances_app, IH.
  destruct (speakers_of_instances l subj_map); [|done]. cbn.
  by destruct (speakers_of_instances (concat values) subj_map).
Qed.

Lemma speakers_of_instances_Return instances subj_map out :
  speakers_of_instances instances subj_map = Return out <->
  Forall2 (fun i o => o.1 = i /\ PyDict.get i.2 subj_map = Some o.2)
          instances out.
Proof.
  revert out. induction instances as [|i instances IH]; intros out.
  - cbn. split.
    + intros [= <-]. constructor.
    + by intros ->%Forall2_nil_inv_l.
  - rewrite speakers_of_instances_cons. split.
    + destruct (PyDict.get i.2 subj_map) as [subj|] eqn:Hi; [|done].
      destruct (speakers_of_instances instances subj_map) as [out'|] eqn:Hout;
        [|done].
      intros [= <-]. constructor; [done|]. by apply IH.
    + intros (o & out' & [<- Hi] & Hrest & ->)%Forall2_cons_inv_l.
      rewrite Hi. apply IH in Hrest. rewrite Hrest. by destruct o.
Qed.

Lemma speakers_of_instances_Raise instances subj_map x :
  speakers_of_instances instances subj_map = Raise x <->
  exists pre i post,
    instances = pre ++ i :: post /\
    (forall i', i' ∈ pre -> is_Some (PyDict.get i'.2 subj_map)) /\
    PyDict.get i.2 subj_map = None /\ x = KeyError i.2.
Proof.
  revert x. induction instances as [|i0 instances IH]; intros x.
  - cbn. split; [done|]. intros (pre & i & post & Heq & _).
    by destruct pre.
  - rewrite speakers_of_instances_cons.
    destruct (PyDict.get i0.2 subj_map) as [subj|] eqn:Hi0.
    + transitivity (speakers_of_instances instances subj_map = Raise x).
      { destruct (speakers_of_instances instances subj_map); split; congruence. }
      rewrite IH. split.
      * intros (pre & i & post & -> & Hpre & Hi & ->).
        exists (i0 :: pre), i, post. split; [done|]. split; [|done].
        intros i' [->|Hi']%elem_of_cons; [by eexists|by apply Hpre].
      * intros (pre & i & post & Heq & Hpre & Hi & ->).
        destruct pre as [|p pre]; injection Heq as <- ->; [congruence|].
        exists pre, i, post. split; [done|]. split; [|done].
        intros i' Hi'. by apply Hpre, list_elem_of_further.
    + split.
      * intros [= <-]. exists [], i0, instances. split; [done|].
        split; [by intros i' ?%elem_of_nil|done].
      * intros (pre & i & post & Heq & Hpre & Hi & ->).
        destruct pre as [|p pre]; injection Heq as <- ->; [done|].
        destruct (Hpre i0 (list_elem_of_here _ _)) as [? ?]. congruence.
Qed.

Lemma elem_of_concat {A} (x : A) (ls : list (list A)) :
  x ∈ concat ls <-> exists l, l ∈ ls /\ x ∈ l.
Proof.
  rewrite list_elem_of_In, in_concat. by setoid_rewrite list_elem_of_In.
Qed.

Lemma speakers_Return values subj_map out :
  speakers values subj_map = Return out <->
  Forall2 (fun i o => o.1 = i /\ PyDict.get i.2 subj_map = Some o.2)
          (concat values) out.
Proof. rewrite speakers_concat. apply speakers_of_instances_Return. Qed.

Lemma speakers_all_present values subj_map :
  (exists out, speakers values subj_map = Return out) <->
  forall l i, l ∈ values -> i ∈ l -> is_Some (PyDict.get i.2 subj_map).
Proof.
  split.
  - intros [out Hout] l i Hl Hi. apply speakers_Return in Hout.
    assert (Hin : i ∈ concat values) by (apply elem_of_concat; eauto).
    apply list_elem_of_lookup in Hin as [n Hn].
    destruct (Forall2_lookup_l _ _ _ _ _ Hout Hn) as (o & _ & _ & Ho).
    by eexists.
  - intros Hall.
    destruct (speakers values subj_map) as [out|x] eqn:Hsp; [by eexists|].
    rewrite speakers_concat in Hsp.
    apply speakers_of_instances_Raise in Hsp
      as (pre & i & post & Heq & _ & Hi & _).
    assert (Hin : i ∈ concat values).
    { rewrite Heq, elem_of_app, elem_of_cons. tauto. }
    apply elem_of_concat in Hin as (l & Hl & Hil).
    destruct (Hall l i Hl Hil) as [? ?]. congruence.
Qed.

(** X7: cell 16 runs to its end exactly when the verb of every instance
    is a key of [subj_map]; it then prints one line per instance, in the
    order of the instances, with the subject stored for the verb. *)
Theorem speakers_returns values subj_map :
  ((exists out, speakers values subj_map = Return out) <->
   forall l i, l ∈ values -> i ∈ l -> is_Some (PyDict.get i.2 subj_map)) /\
  forall out, speakers values subj_map = Return out <->
    Forall2 (fun i o => o.1 = i /\ PyDict.get i.2 subj_map = Some o.2)
            (concat values) out.
Proof.
  split; [apply speakers_all_present|]. intros out. apply speakers_Return.
Qed.

(** X8: cell 16 stops with KeyError exactly at the first instance, in
    the order of the instances, whose verb is not a key of [subj_map];
    the key reported is that verb. *)
Theorem speakers_first_missing_verb values subj_map x :
  speakers values subj_map = Raise x <->
  exists pre i post,
    concat values = pre ++ i :: post /\
    (forall i', i' ∈ pre -> is_Some (PyDict.get i'.2 subj_map)) /\
    PyDict.get i.2 subj_map = None /\ x = KeyError i.2.
Proof. rewrite speakers_concat. apply speakers_of_instances_Raise. Qed.

Lemma speakers_of_verbs_cons d e v items subj_map :
  speakers_of_verbs d ((e, v) :: items) subj_map =
  match PyDict.get (head (token d v)) subj_map with
  | None => Raise (KeyError (head (token d v)))
  | Some subj =>
      match speakers_of_verbs d items subj_map with
      | Return out => Return ((e, subj) :: out)
      | Raise x => Raise x
      end
  end.
Proof.
  cbn [speakers_of_verbs]. unfold subscript.
  by destruct (PyDict.get (head (token d v)) subj_map).
Qed.

(** X9: cell 12 runs to its end exactly when the head of the verb of
    every word is a key of [subj_map], and then prints each word with the
    subject stored for that head; otherwise it stops with KeyError at the
    first word for which the head of the verb is not a key. *)
Theorem speakers_of_verbs_outcome d (items : list (tokid * tokid)) subj_map :
  (forall out, speakers_of_verbs d items subj_map = Return out <->
     Forall2 (fun it o => o.1 = it.1 /\
                PyDict.get (head (token d it.2)) subj_map = Some o.2)
             items out) /\
  (forall x, speakers_of_verbs d items subj_map = Raise x <->
     exists pre it post,
       items = pre ++ it :: post /\
       (forall it', it' ∈ pre ->
          is_Some (PyDict.get (head (token d it'.2)) subj_map)) /\
       PyDict.get (head (token d it.2)) subj_map = None /\
       x = KeyError (head (token d it.2))).
Proof.
  induction items as [|[e v] items [IHret IHraise]].
  - split.
    + intros out. cbn. split.
      * intros [= <-]. constructor.
      * by intros ->%Forall2_nil_inv_l.
    + intros x. cbn. split; [done|].
      intros (pre & it & post & Heq & _). by destruct pre.
  - split.
    + intros out. rewrite speakers_of_verbs_cons. split.
      * destruct (PyDict.get _ subj_map) as [subj|] eqn:Hv; [|done].
        destruct (speakers_of_verbs d items subj_map) as [out'|] eqn:Hout;
          [|done].
        intros [= <-]. constructor; [done|]. by apply IHret.
      * intros (o & out' & [Ho Hv] & Hrest & ->)%Forall2_cons_inv_l.
        cbn in Ho, Hv. rewrite Hv. apply IHret in Hrest. rewrite Hrest.
        destruct o. cbn in *. by subst.
    + intros x. rewrite speakers_of_verbs_cons.
      destruct (PyDict.get (head (token d v)) subj_map) as [subj|] eqn:Hv.
      * transitivity (speakers_of_verbs d items subj_map = Raise x).
        { destruct (speakers_of_verbs d items subj_map); split; congruence. }
        rewrite IHraise. split.
        -- intros (pre & it & post & -> & Hpre & Hit & ->).
           exists ((e, v) :: pre), it, post. split; [done|]. split; [|done].
           intros it' [->|Hit']%elem_of_cons; [by eexists|by apply Hpre].
        -- intros (pre & it & post & Heq & Hpre & Hit & ->).
           destruct pre as [|p pre]; injection Heq as <- ->;
             [cbn in Hit; congruence|].
           exists pre, it, post. split; [done|]. split; [|done].
           intros it' Hit'. by apply Hpre, list_elem_of_further.
      * split.
        -- intros [= <-]. exists [], (e, v), items. split; [done|].
           split; [by intros it' ?%elem_of_nil|done].
        -- intros (pre & it & post & Heq & Hpre & Hit & ->).
           destruct pre as [|p pre]; injection Heq as <- ->; [done|].
           destruct (Hpre (e, v) (list_elem_of_here _ _)) as [? H]. cbn in H.
           congruence.
Qed.

(** ** When [find_sentence] returns *)

(** X13: [find_sentence] returns exactly when the head chain of every
    token whose text is a topic word or a forward word contains a token
    that passes the test of [get_verb]. *)
Theorem find_sentence_returns_iff E F d :
  (exists r, find_sentence_returns E F d r) <->
  (forall s w, s ∈ sents d -> w ∈ span_toks s -> matched E F d w ->
               exists n, is_main_verb d (chain d w n) = true).
Proof.
  split.
  - intros (r & fuel & Hr) s w Hs Hw Hm.
    destruct (get_verb fuel d w) as [v|] eqn:Hv.
    + destruct (get_verb_sound _ _ _ _ Hv) as (k & _ & _ & Hk & _). by exists k.
    + unfold find_sentence in Hr.
      by rewrite (find_sentence_from_running fuel E F d _ [] s w Hs Hw Hm Hv) in Hr.
  - intros Hverb.
    destruct (find_sentence_total E F d) as (fuel & r & Hr & _).
    { intros s w Hs Hw Hm. destruct (Hverb s w Hs Hw Hm) as [n Hn].
      destruct (first_main_verb_exists d w n Hn) as (k & _ & Hk).
      exists (chain d w k), (S k). apply get_verb_first; [done|lia]. }
    exists r. by exists fuel.
Qed.

(** X14: on a document each sentence of which is a well-formed tree
    whose root is tagged VERB with a label other than aux,
    [find_sentence] returns, and the verb of every instance is a token of
    the sentence the instance is stored under. *)
Theorem find_sentence_on_verb_rooted_trees E F d :
  (forall s, s ∈ sents d ->
     exists root, wf_tree d (span_toks s) root /\ is_main_verb d root = true) ->
  exists r, find_sentence_returns E F d r /\
            forall s inst, emitted r s inst -> inst.2 ∈ span_toks s.
Proof.
  intros Hwf.
  destruct (find_sentence_total E F d) as (fuel & r & Hr & _ & Hspec).
  { intros s w Hs Hw _. destruct (Hwf s Hs) as (root & Htree & Hroot).
    destruct (wf_reaches_root _ _ _ Htree w Hw) as [k Hk].
    destruct (first_main_verb_exists d w k) as (j & _ & Hj); [by rewrite Hk|].
    exists (chain d w j), (S j). apply get_verb_first; [done|lia]. }
  exists r. split; [by exists fuel|].
  intros s inst [Hs (e & f & v & -> & He & _ & _ & _ & [n Hv] & _)]%Hspec.
  destruct (Hwf s Hs) as (root & Htree & _).
  destruct (get_verb_sound _ _ _ _ Hv) as (k & _ & -> & _).
  by apply (chain_in d _ root).
Qed.

Lemma find_sentence_on_verb_rooted_trees_witness :
  exists r, find_sentence_returns earnings_words forward_words sent_doc r /\
            forall s inst, emitted r s inst -> inst.2 ∈ span_toks s.
Proof.
  apply (find_sentence_on_verb_rooted_trees earnings_words forward_words sent_doc).
  intros s Hs. list_cases Hs. exists 1. split; [exact sent_doc_wf|reflexivity].
Defined.

(** ** The result of [find_sentence], entry by entry *)

Lemma dict_get_app_last {K V} `{EqDecision K} (m : PyDict.dict K V) k v :
  k ∉ PyDict.keys m -> PyDict.get k (m ++ [(k, v)]) = Some v.
Proof.
  intros Hk. rewrite <- (dict_set_fresh m k v Hk). apply dict_get_set_eq.
Qed.

Lemma dict_set_app_last {K V} `{EqDecision K} (m : PyDict.dict K V) k v v' :
  k ∉ PyDict.keys m -> PyDict.set k v' (m ++ [(k, v)]) = m ++ [(k, v')].
Proof.
  unfold PyDict.keys.
  induction m as [|[k0 v0] m IH]; cbn [PyDict.set map fst app]; intros Hk.
  - by case_decide.
  - apply not_elem_of_cons in Hk as [Hne Hk].
    destruct (decide (k = k0)); [done|]. by rewrite IH.
Qed.

(** Appending the instances of one sentence, one at a time, to a result
    that does not hold the sentence yet. *)
Lemma emit_all_fresh s (l : list Instance) ri :
  s ∉ PyDict.keys ri ->
  fold_left (fun ri inst => emit s inst ri) l ri =
  match l with [] => ri | _ => ri ++ [(s, l)] end.
Proof.
  intros Hs. destruct l as [|i l]; [done|]. cbn [fold_left].
  assert (Hfirst : emit s i ri = ri ++ [(s, [i])]).
  { unfold emit. apply dict_get_None in Hs. rewrite Hs.
    apply dict_set_fresh. by apply dict_get_None. }
  rewrite Hfirst. clear Hfirst.
  change (i :: l) with ([i] ++ l). generalize [i]. intros l0.
  revert l0. induction l as [|i' l IH]; intros l0; cbn [fold_left].
  - by rewrite app_nil_r.
  - unfold emit at 2. rewrite dict_get_app_last, dict_set_app_last by done.
    rewrite IH. by rewrite <- app_assoc.
Qed.

Lemma match_pairs_fold d s ep_verbs fp_verbs ri :
  match_pairs d s ep_verbs fp_verbs ri =
  fold_left (fun ri inst => emit s inst ri)
    (flat_map (fun '(e, ev) =>
       flat_map (fun '(f, fv) =>
         if Nat.eqb ev fv
         then [(text (token d e), text (token d f), ev)] else [])
       fp_verbs) ep_verbs)
    ri.
Proof.
  unfold match_pairs. revert ri.
  induction ep_verbs as [|[e ev] ep_verbs IH]; intros ri; [done|].
  cbn [fold_left flat_map]. rewrite fold_left_app, IH. f_equal.
  clear IH. revert ri.
  induction fp_verbs as [|[f fv] fp_verbs IHfp]; intros ri; [done|].
  cbn [fold_left flat_map]. rewrite fold_left_app, IHfp.
  by destruct (Nat.eqb ev fv).
Qed.

(** The comprehension over distinct words, as a list. *)
Lemma verbs_of_exact fuel d ws acc :
  NoDup ws -> (forall w, w ∈ ws -> w ∉ PyDict.keys acc) ->
  (forall w, w ∈ ws -> is_Some (get_verb fuel d w)) ->
  verbs_of fuel d ws acc =
  Some (acc ++ omap (fun w => pair w <$> get_verb fuel d w) ws).
Proof.
  revert acc. induction ws as [|w ws IH]; intros acc Hnd Hfresh Hret.
  - by rewrite app_nil_r.
  - apply NoDup_cons in Hnd as [Hw Hnd].
    destruct (Hret w (list_elem_of_here _ _)) as [v Hv].
    cbn [verbs_of omap list_omap]. rewrite Hv. cbn.
    rewrite dict_set_fresh by (apply Hfresh, list_elem_of_here).
    rewrite IH; [by rewrite <- app_assoc|done| |].
    + intros w' Hw'. unfold PyDict.keys. rewrite map_app, elem_of_app.
      intros [Hin|Hin].
      * by apply (Hfresh w'); [apply list_elem_of_further|].
      * apply list_elem_of_singleton in Hin. cbn in Hin. congruence.
    + intros w' Hw'. by apply Hret, list_elem_of_further.
Qed.

Lemma match_pairs_sentence fuel E F d s ri :
  match_pairs d s
    (omap (fun w => pair w <$> get_verb fuel d w) (lexicon_match d (span_toks s) E))
    (omap (fun w => pair w <$> get_verb fuel d w) (lexicon_match d (span_toks s) F))
    ri
  = fold_left (fun ri inst => emit s inst ri) (sentence_instances fuel E F d s) ri.
Proof.
  rewrite match_pairs_fold. f_equal. unfold sentence_instances.
  generalize (lexicon_match d (span_toks s) F). intros fs.
  induction (lexicon_match d (span_toks s) E) as [|e es IH]; [done|].
  cbn [omap list_omap flat_map]. rewrite <- IH. clear IH.
  destruct (get_verb fuel d e) as [ev|]; cbn [fmap option_fmap option_map flat_map].
  - f_equal. induction fs as [|f fs IH]; [done|].
    cbn [omap list_omap flat_map]. rewrite <- IH.
    by destruct (get_verb fuel d f).
  - assert (Hnil : forall l : list tokid,
              flat_map (fun _ : tokid => @nil Instance) l = []).
    { induction l as [|x l IHl]; [done|]. cbn [flat_map app]. exact IHl. }
    by rewrite Hnil.
Qed.

Lemma find_sentence_from_exact fuel E F d ss ri :
  NoDup ss -> (forall s, s ∈ ss -> s ∉ PyDict.keys ri) ->
  (forall s w, s ∈ ss -> w ∈ span_toks s -> matched E F d w ->
               is_Some (get_verb fuel d w)) ->
  find_sentence_from fuel E F d ss ri =
  Some (ri ++ omap (sentence_entry fuel E F d) ss).
Proof.
  revert ri. induction ss as [|s ss IH]; intros ri Hnd Hfresh Hret.
  - by rewrite app_nil_r.
  - apply NoDup_cons in Hnd as [Hs Hnd].
    cbn [find_sentence_from].
    rewrite (verbs_of_exact fuel d (lexicon_match d (span_toks s) E) []);
      [|apply lexicon_match_NoDup|by intros w _ ?%elem_of_nil|].
    2:{ intros w [Hw Ht]%lexicon_match_elem.
        apply (Hret s w); [apply list_elem_of_here|done|by left]. }
    rewrite (verbs_of_exact fuel d (lexicon_match d (span_toks s) F) []);
      [|apply lexicon_match_NoDup|by intros w _ ?%elem_of_nil|].
    2:{ intros w [Hw Ht]%lexicon_match_elem.
        apply (Hret s w); [apply list_elem_of_here|done|by right]. }
    cbn [mbind option_bind app]. rewrite match_pairs_sentence.
    rewrite emit_all_fresh by (apply Hfresh, list_elem_of_here).
    assert (Hentry : sentence_entry fuel E F d s =
              match sentence_instances fuel E F d s with
              | [] => None
              | l => Some (s, l)
              end) by done.
    cbn [omap list_omap]. rewrite Hentry.
    destruct (sentence_instances fuel E F d s) as [|i l].
    + apply IH; [done| |].
      * intros s' Hs'. by apply Hfresh, list_elem_of_further.
      * intros s' w Hs'. by apply Hret, list_elem_of_further.
    + rewrite IH; [by rewrite <- app_assoc|done| |].
      * intros s' Hs'. unfold PyDict.keys. rewrite map_app, elem_of_app.
        intros [Hin|Hin].
        -- by apply (Hfresh s'); [apply list_elem_of_further|].
        -- apply list_elem_of_singleton in Hin. cbn in Hin. congruence.
      * intros s' w Hs'. by apply Hret, list_elem_of_further.
Qed.

(** X11: on a document whose sentences are distinct, once every call of
    [get_verb] returns within [fuel] iterations, the result of
    [find_sentence] is, in the order of the document, one entry for each
    sentence that has an instance; the list of a sentence is the
    comprehension over its topic words and, for each, its forward words,
    keeping the pairs on which [get_verb] returns the same token. *)
Theorem find_sentence_exact fuel E F d :
  NoDup (sents d) ->
  (forall s w, s ∈ sents d -> w ∈ span_toks s -> matched E F d w ->
               is_Some (get_verb fuel d w)) ->
  find_sentence fuel E F d = Some (omap (sentence_entry fuel E F d) (sents d)).
Proof.
  intros Hnd Hret. unfold find_sentence.
  rewrite find_sentence_from_exact; [done|done| |done].
  by intros s _ ?%elem_of_nil.
Qed.

Lemma find_sentence_exact_witness :
  find_sentence 3 earnings_words forward_words sent_doc
  = Some (omap (sentence_entry 3 earnings_words forward_words sent_doc)
               (sents sent_doc)).
Proof.
  apply (find_sentence_exact 3 earnings_words forward_words sent_doc).
  - apply (bool_decide_unpack _). by vm_compute.
  - intros s w Hs Hw _. list_cases Hs. list_cases Hw; by eexists.
Defined.

Lemma flat_map_length_le {A B} (g : A -> list B) (l : list A) n :
  (forall x, length (g x) <= n) -> length (flat_map g l) <= length l * n.
Proof.
  intros Hg. induction l as [|x l IH]; [done|].
  cbn [flat_map length]. rewrite length_app. specialize (Hg x). lia.
Qed.

Lemma sentence_instances_length fuel E F d s :
  length (sentence_instances fuel E F d s) <=
  length (lexicon_match d (span_toks s) E) * length (lexicon_match d (span_toks s) F).
Proof.
  unfold sentence_instances. apply flat_map_length_le. intros e.
  rewrite <- (Nat.mul_1_r (length (lexicon_match d (span_toks s) F))).
  apply flat_map_length_le. intros f.
  destruct (get_verb fuel d e) as [ev|]; [|cbn; lia].
  destruct (get_verb fuel d f) as [fv|]; [|cbn; lia].
  destruct (Nat.eqb ev fv); cbn; lia.
Qed.

Lemma sentence_entries_keys fuel E F d (ss : list Span) :
  sublist (PyDict.keys (omap (sentence_entry fuel E F d) ss)) ss.
Proof.
  induction ss as [|s ss IH]; [done|]. cbn [omap list_omap].
  unfold sentence_entry at 1.
  destruct (sentence_instances fuel E F d s).
  - by apply sublist_cons.
  - by apply sublist_skip.
Qed.

(** X12: in the result of [find_sentence] the sentences come in the
    order of the document, and the list of a sentence has at least one
    instance and at most as many as the number of its topic words times
    the number of its forward words; so a sentence without a topic word
    or without a forward word is not in the result. *)
Theorem find_sentence_shape fuel E F d :
  NoDup (sents d) ->
  (forall s w, s ∈ sents d -> w ∈ span_toks s -> matched E F d w ->
               is_Some (get_verb fuel d w)) ->
  exists r, find_sentence fuel E F d = Some r /\
    sublist (PyDict.keys r) (sents d) /\
    forall s l, (s, l) ∈ r ->
      1 <= length l /\
      length l <= length (lexicon_match d (span_toks s) E)
                  * length (lexicon_match d (span_toks s) F).
Proof.
  intros Hnd Hret. exists (omap (sentence_entry fuel E F d) (sents d)).
  split; [|split].
  - unfold find_sentence.
    rewrite find_sentence_from_exact; [done|done| |done].
    by intros s _ ?%elem_of_nil.
  - apply sentence_entries_keys.
  - intros s l (s' & _ & Hentry)%list_elem_of_omap.
    unfold sentence_entry in Hentry.
    pose proof (sentence_instances_length fuel E F d s') as Hlen.
    destruct (sentence_instances fuel E F d s') as [|i l'] eqn:Hl; [done|].
    injection Hentry as <- <-. split; [cbn; lia|done].
Qed.

Lemma find_sentence_shape_witness :
  exists r, find_sentence 3 earnings_words forward_words sent_doc = Some r /\
    sublist (PyDict.keys r) (sents sent_doc) /\
    forall s l, (s, l) ∈ r ->
      1 <= length l /\
      length l <= length (lexicon_match sent_doc (span_toks s) earnings_words)
                  * length (lexicon_match sent_doc (span_toks s) forward_words).
Proof.
  apply (find_sentence_shape 3 earnings_words forward_words sent_doc).
  - apply (bool_decide_unpack _). by vm_compute.
  - intros s w Hs Hw _. list_cases Hs. list_cases Hw; by eexists.
Defined.

(** ** From the sentences found to their speakers *)

Lemma emit_NoDup s inst ri :
  NoDup (PyDict.keys ri) -> NoDup (PyDict.keys (emit s inst ri)).
Proof. intros H. unfold emit. destruct (PyDict.get s ri); by apply dict_set_NoDup. Qed.

Lemma match_pairs_NoDup d s ep_verbs fp_verbs ri :
  NoDup (PyDict.keys ri) -> NoDup (PyDict.keys (match_pairs d s ep_verbs fp_verbs ri)).
Proof.
  rewrite match_pairs_fold. generalize (flat_map (fun '(e, ev) =>
       flat_map (fun '(f, fv) =>
         if Nat.eqb ev fv
         then [(text (token d e), text (token d f), ev)] else [])
       fp_verbs) ep_verbs). intros l. revert ri.
  induction l as [|i l IH]; intros ri Hri; [done|].
  cbn [fold_left]. by apply IH, emit_NoDup.
Qed.

Lemma find_sentence_from_NoDup fuel E F d ss ri r :
  find_sentence_from fuel E F d ss ri = Some r ->
  NoDup (PyDict.keys ri) -> NoDup (PyDict.keys r).
Proof.
  revert ri. induction ss as [|s ss IH]; intros ri Hr Hri.
  - by injection Hr as <-.
  - cbn [find_sentence_from] in Hr.
    destruct (verbs_of fuel d (lexicon_match d (span_toks s) E) []) as [le|];
      [|done]. cbn in Hr.
    destruct (verbs_of fuel d (lexicon_match d (span_toks s) F) []) as [lf|];
      [|done]. cbn in Hr.
    apply (IH _ Hr). by apply match_pairs_NoDup.
Qed.

Lemma get_subjMap_is_Some d v :
  is_Some (PyDict.get v (get_subjMap d)) <->
  exists w, w ∈ doc_toks d /\ subject_of d v w.
Proof.
  destruct (get_subjMap_get d) as [_ Hget]. rewrite Hget. split.
  - intros [w Hw]. exists w.
    apply last_Some_elem_of, list_elem_of_filter in Hw. tauto.
  - intros (w & Hin & Hw).
    destruct (last (filter (subject_of d v) (doc_toks d))) eqn:Hl; [by eexists|].
    apply last_None in Hl.
    assert (Hf : w ∈ filter (subject_of d v) (doc_toks d)).
    { apply list_elem_of_filter. by split. }
    rewrite Hl in Hf. by apply elem_of_nil in Hf.
Qed.

(** X10: cells 14 to 16 together. When the head chain of every topic
    word and forward word contains a token that passes the test of
    [get_verb], [find_sentence] returns, and the loop of cell 16 over its
    result runs to its end exactly when every verb shared by a pair has a
    token labelled nsubj with that verb as head; each line printed then
    gives an instance of a pair and a nominal subject of its verb. *)
Theorem speakers_of_found_sentences E F d :
  (forall s w, s ∈ sents d -> w ∈ span_toks s -> matched E F d w ->
               exists n, is_main_verb d (chain d w n) = true) ->
  exists r,
    find_sentence_returns E F d r /\
    ((exists out, speakers (PyDict.values r) (get_subjMap d) = Return out) <->
     forall s inst, s ∈ sents d -> shared_verb_pair E F d s inst ->
                    exists w, w ∈ doc_toks d /\ subject_of d inst.2 w) /\
    (forall out inst subj,
       speakers (PyDict.values r) (get_subjMap d) = Return out ->
       (inst, subj) ∈ out ->
       subject_of d inst.2 subj /\
       exists s, s ∈ sents d /\ shared_verb_pair E F d s inst).
Proof.
  intros Hverb.
  destruct (find_sentence_total E F d) as (fuel & r & Hr & _ & Hspec).
  { intros s w Hs Hw Hm. destruct (Hverb s w Hs Hw Hm) as [n Hn].
    destruct (first_main_verb_exists d w n Hn) as (k & _ & Hk).
    exists (chain d w k), (S k). apply get_verb_first; [done|lia]. }
  assert (Hnd : NoDup (PyDict.keys r)).
  { apply (find_sentence_from_NoDup fuel E F d (sents d) []); [done|].
    apply NoDup_nil_2. }
  assert (Hval : forall l i, l ∈ PyDict.values r /\ i ∈ l <->
                   exists s, PyDict.get s r = Some l /\ i ∈ l).
  { intros l i. unfold PyDict.values. rewrite list_elem_of_fmap. split.
    - intros [([s l'] & -> & Hin) Hi]. exists s. split; [|done].
      by apply dict_entry_get.
    - intros (s & Hget & Hi). split; [|done]. exists (s, l). split; [done|].
      by apply dict_entry_get. }
  exists r. split; [by exists fuel|]. split.
  - rewrite speakers_all_present. split.
    + intros Hall s inst Hs Hpair. apply get_subjMap_is_Some.
      destruct (proj2 (Hspec s inst) (conj Hs Hpair)) as (l & Hl & Hi).
      apply (Hall l inst); [|done]. apply (Hval l inst). by exists s.
    + intros Hall l i Hl Hi. apply get_subjMap_is_Some.
      destruct (proj1 (Hval l i) (conj Hl Hi)) as (s & Hget & _).
      destruct (proj1 (Hspec s i)) as [Hs Hpair]; [by exists l|].
      by apply (Hall s).
  - intros out inst subj Hout Hin. apply speakers_Return in Hout.
    apply list_elem_of_lookup in Hin as [n Hn].
    destruct (Forall2_lookup_r _ _ _ _ _ Hout Hn) as (i & Hi & Heq & Hget).
    cbn in Heq, Hget. subst i. split.
    + destruct (get_subjMap_get d) as [_ Hlast]. rewrite Hlast in Hget.
      by apply last_Some_elem_of, list_elem_of_filter in Hget as [? _].
    + assert (Hc : inst ∈ concat (PyDict.values r)).
      { apply list_elem_of_lookup. by exists n. }
      apply elem_of_concat in Hc as (l & Hl & Hil).
      destruct (proj1 (Hval l inst) (conj Hl Hil)) as (s & Hs & _).
      exists s. apply Hspec. by exists l.
Qed.

Lemma speakers_of_found_sentences_witness :
  exists r,
    find_sentence_returns earnings_words forward_words sent_doc r /\
    ((exists out, speakers (PyDict.values r) (get_subjMap sent_doc) = Return out) <->
     forall s inst, s ∈ sents sent_doc ->
       shared_verb_pair earnings_words forward_words sent_doc s inst ->
       exists w, w ∈ doc_toks sent_doc /\ subject_of sent_doc inst.2 w) /\
    (forall out inst subj,
       speakers (PyDict.values r) (get_subjMap sent_doc) = Return out ->
       (inst, subj) ∈ out ->
       subject_of sent_doc inst.2 subj /\
       exists s, s ∈ sents sent_doc /\
                 shared_verb_pair earnings_words forward_words sent_doc s inst).
Proof.
  apply (speakers_of_found_sentences earnings_words forward_words sent_doc).
  intros s w Hs Hw _. list_cases Hs.
  list_cases Hw; first [by exists 0 | by exists 1 | by exists 2].
Defined.

(** ** The value of the tone *)




(** ** Words that occur in the sentence *)

Lemma string_app_assoc (a b c : string) :
  ((a ++ b) ++ c)%string = (a ++ (b ++ c))%string.
Proof.
  induction a as [|x a IH]; [reflexivity|].
  change (String x ((a ++ b) ++ c) = String x (a ++ (b ++ c)))%string.
  by rewrite IH.
Qed.

Lemma string_app_nil_r (a : string) : (a ++ "")%string = a.
Proof.
  induction a as [|x a IH]; [reflexivity|].
  change (String x (a ++ "") = String x a)%string. by rewrite IH.
Qed.

Lemma starts_with_spec w s :
  starts_with w s = true <-> exists post, s = (w ++ post)%string.
Proof.
  revert s. induction w as [|c w IH]; intros s; cbn.
  - split; [|done]. intros _. by exists s.
  - destruct s as [|c' s].
    + split; [done|]. by intros [post [=]].
    + rewrite andb_true_iff, Ascii.eqb_eq, IH. split.
      * intros [-> [post ->]]. by exists post.
      * intros [post [= -> ->]]. split; [done|]. by exists post.
Qed.

Lemma str_contains_spec w s :
  str_contains w s = true <->
  exists pre post, s = (pre ++ w ++ post)%string.
Proof.
  induction s as [|c s IH]; cbn [str_contains]; rewrite orb_true_iff.
  - rewrite starts_with_spec. split.
    + intros [[post ->]|[=]]. by exists "", post.
    + intros (pre & post & Heq). left. destruct pre; [by exists post|done].
  - rewrite starts_with_spec, IH. split.
    + intros [[post ->]|(pre & post & ->)]; [by exists "", post|].
      by exists (String c pre), post.
    + intros ([|c' pre] & post & Heq).
      * left. by exists post.
      * right. injection Heq as -> ->. by exists pre, post.
Qed.

(** X16: [[w in sent for w in words]] has one entry per word of the
    list, in order, and the entry of a word is True exactly when the
    sentence is some text, the word, and some text: a word inside a
    longer word counts. *)
Theorem words_in_spec (sentence : string) (words : list string) :
  length (words_in sentence words) = length words /\
  forall i w, words !! i = Some w ->
    exists b, words_in sentence words !! i = Some b /\
      (b = true <-> exists pre post, sentence = (pre ++ w ++ post)%string).
Proof.
  unfold words_in. split; [apply length_map|].
  intros i w Hw. exists (str_contains w sentence). split.
  - change (map (fun w0 => str_contains w0 sentence) words)
      with ((fun w0 => str_contains w0 sentence) <$> words).
    by rewrite list_lookup_fmap, Hw.
  - apply str_contains_spec.
Qed.

(** The lists printed by cells 3 and 4. *)
Example words_in_sent :
  words_in sent earnings_words = [true; false; false] /\
  words_in sent forward_words = [false; false; true; false] /\
  words_in "goodwill" forward_words = [false; false; true; false].
Proof. repeat split. Qed.

Lemma split_from_contains cur s w :
  w ∈ split_from cur s ->
  exists pre post, (cur ++ s)%string = (pre ++ w ++ post)%string.
Proof.
  revert cur. induction s as [|c s IH]; intros cur; cbn [split_from].
  - destruct (String.eqb cur ""); [by intros ?%elem_of_nil|].
    intros ->%list_elem_of_singleton. exists "", "". reflexivity.
  - destruct (is_space c).
    + destruct (String.eqb cur "") eqn:Hcur.
      * apply String.eqb_eq in Hcur as ->. intros (pre & post & Heq)%IH.
        change ("" ++ s)%string with s in Heq.
        exists (String c pre), post.
        change (String c s = String c (pre ++ w ++ post))%string.
        by rewrite Heq.
      * intros [->|(pre & post & Heq)%IH]%elem_of_cons.
        -- by exists "", (String c s).
        -- change ("" ++ s)%string with s in Heq.
           exists (cur ++ String c pre)%string, post.
           rewrite string_app_assoc.
           change (String c pre ++ w ++ post)%string
             with (String c (pre ++ w ++ post))%string.
           by rewrite Heq.
    + intros (pre & post & Heq)%IH. exists pre, post. rewrite <- Heq.
      by rewrite string_app_assoc.
Qed.

(** X17: a word that [split] yields occurs in the sentence, so every
    word of a list that the word test of the tone counts is also
    reported by the test of cells 3 and 4. *)
Theorem split_word_in_sentence (sentence : string) (words : list string) word :
  word ∈ split sentence ->
  str_contains word sentence = true /\
  (word ∈ words ->
   exists i, words !! i = Some word /\ words_in sentence words !! i = Some true).
Proof.
  intros Hw.
  assert (Hc : str_contains word sentence = true).
  { apply str_contains_spec. by apply (split_from_contains "" sentence). }
  split; [done|]. intros [i Hi]%list_elem_of_lookup. exists i. split; [done|].
  unfold words_in.
  change (map (fun w0 => str_contains w0 sentence) words)
    with ((fun w0 => str_contains w0 sentence) <$> words).
  by rewrite list_lookup_fmap, Hi, <- Hc.
Qed.

Lemma split_word_in_sentence_witness :
  str_contains "awful" "We had an awful quarter, sales have been terrible." = true /\
  ("awful" ∈ negative_words ->
   exists i, negative_words !! i = Some "awful" /\
     words_in "We had an awful quarter, sales have been terrible." negative_words !! i
     = Some true).
Proof.
  apply (split_word_in_sentence
           "We had an awful quarter, sales have been terrible." negative_words).
  in_list.
Defined.

Lemma list_ascii_snoc cur c :
  list_ascii_of_string (cur ++ String c "")%string
  = list_ascii_of_string cur ++ [c].
Proof.
  induction cur as [|x cur IH]; [reflexivity|].
  change (x :: list_ascii_of_string (cur ++ String c "")%string
          = x :: (list_ascii_of_string cur ++ [c])).
  by rewrite IH.
Qed.

Lemma split_from_clean cur s w :
  (forall c, In c (list_ascii_of_string cur) -> is_space c = false) ->
  w ∈ split_from cur s ->
  w <> "" /\ forall c, In c (list_ascii_of_string w) -> is_space c = false.
Proof.
  revert cur. induction s as [|c s IH]; intros cur Hcur; cbn [split_from].
  - destruct (String.eqb cur "") eqn:He; [by intros ?%elem_of_nil|].
    intros ->%list_elem_of_singleton. by apply String.eqb_neq in He.
  - destruct (is_space c) eqn:Hc.
    + destruct (String.eqb cur "") eqn:He.
      * apply IH. by intros c' [].
      * intros [->|Hw]%elem_of_cons; [by apply String.eqb_neq in He|].
        revert Hw. apply IH. by intros c' [].
    + apply IH. intros c'. rewrite list_ascii_snoc, in_app_iff.
      intros [Hin|[<-|[]]]; [by apply Hcur|done].
Qed.

Lemma split_from_nil cur s :
  split_from cur s = [] <-> cur = "" /\ all_space s = true.
Proof.
  revert cur. induction s as [|c s IH]; intros cur; cbn [split_from all_space].
  - destruct (String.eqb cur "") eqn:He.
    + apply String.eqb_eq in He. tauto.
    + apply String.eqb_neq in He. split; [done|tauto].
  - destruct (is_space c) eqn:Hc; cbn [andb].
    + destruct (String.eqb cur "") eqn:He.
      * apply String.eqb_eq in He. rewrite IH. tauto.
      * apply String.eqb_neq in He. split; [done|tauto].
    + rewrite IH. split; [|by intros [_ ?]].
      intros [Hnil _]. by destruct cur.
Qed.

(** X18: the words that [split] yields are not empty and hold no white
    space, and [split] yields no word exactly when the sentence is empty
    or made of white space only. *)
Theorem split_words_clean (sentence : string) :
  (forall w, w ∈ split sentence ->
     w <> "" /\ forall c, In c (list_ascii_of_string w) -> is_space c = false) /\
  (split sentence = [] <-> all_space sentence = true).
Proof.
  split.
  - intros w. apply split_from_clean. by intros c [].
  - unfold split. rewrite split_from_nil. tauto.
Qed.

(** ** The matched words of the document and of its sentences *)

